(** * Keyraken: the item query and mutation engine of [keyraken.py]

    A shallow embedding of [KeyringManager] (attribute codec, item matcher,
    item mutator and the unlock flow) together with the properties the
    specification states about them. *)

From Stdlib Require Import NArith Lia List String Ascii.
From Stdlib.Strings Require Import Byte.
From stdpp Require Import gmap strings list fin_maps.

Local Open Scope N_scope.

(** ** Python values *)

(** A Python [str] is a sequence of code points; [bytes] a sequence of
    octets.  Dictionary keys, labels, paths, secrets and messages are
    all [str]. *)
Abbreviation pystr := (list N).
Abbreviation pybytes := (list byte).

Global Instance byte_eq_dec : EqDecision byte := Byte.byte_eq_dec.

(** A [str] literal. *)
Definition py (s : string) : pystr :=
  List.map N_of_ascii (list_ascii_of_string s).

(** [Union[str, bytes]]: the two kinds of attribute value the code tells
    apart with [isinstance]. *)
Inductive value :=
| VStr (s : pystr)
| VBytes (b : pybytes).

Global Instance value_eq_dec : EqDecision value.
Proof. solve_decision. Defined.

(** Exceptions raised by the code and by the built-in codec.  In Python
    the two Unicode errors are subclasses of [ValueError]; they are kept
    apart from the [ValueError]s the code raises itself, which carry their
    message. *)
Inductive exn :=
| ValueError (msg : pystr)
| UnicodeDecodeError
| UnicodeEncodeError.

Global Instance exn_eq_dec : EqDecision exn.
Proof. solve_decision. Defined.

(** Outcome of a computation that may raise. *)
Inductive res (A : Type) :=
| Ok (a : A)
| Raise (e : exn).
Arguments Ok {A} a.
Arguments Raise {A} e.

Definition res_bind {A B} (r : res A) (k : A → res B) : res B :=
  match r with
  | Ok a => k a
  | Raise e => Raise e
  end.

(** ** The built-in UTF-8 codec

    [bytes.decode('utf-8')] and [bytes(s, 'utf-8')] in strict mode: shortest
    form only, no surrogates, nothing above U+10FFFF. *)
Module Utf8.

Definition byte_of_N (n : N) : byte :=
  match Byte.of_N n with
  | Some b => b
  | None => x00
  end.

Definition is_cont (n : N) : bool := (0x80 <=? n) && (n <=? 0xBF).

Definition is_surrogate (cp : N) : bool := (0xD800 <=? cp) && (cp <=? 0xDFFF).

Fixpoint decode (bs : pybytes) : option pystr :=
  match bs with
  | [] => Some []
  | b0 :: rest0 =>
    let n0 := Byte.to_N b0 in
    if n0 <? 0x80 then
      match decode rest0 with
      | Some s => Some (n0 :: s)
      | None => None
      end
    else if n0 <? 0xC0 then None
    else if n0 <? 0xE0 then
      match rest0 with
      | b1 :: rest1 =>
        let n1 := Byte.to_N b1 in
        let cp := (n0 - 0xC0) * 64 + (n1 - 0x80) in
        if is_cont n1 && (0x80 <=? cp) then
          match decode rest1 with
          | Some s => Some (cp :: s)
          | None => None
          end
        else None
      | _ => None
      end
    else if n0 <? 0xF0 then
      match rest0 with
      | b1 :: b2 :: rest2 =>
        let n1 := Byte.to_N b1 in
        let n2 := Byte.to_N b2 in
        let cp := (n0 - 0xE0) * 4096 + (n1 - 0x80) * 64 + (n2 - 0x80) in
        if is_cont n1 && is_cont n2 && (0x800 <=? cp) && negb (is_surrogate cp) then
          match decode rest2 with
          | Some s => Some (cp :: s)
          | None => None
          end
        else None
      | _ => None
      end
    else if n0 <? 0xF8 then
      match rest0 with
      | b1 :: b2 :: b3 :: rest3 =>
        let n1 := Byte.to_N b1 in
        let n2 := Byte.to_N b2 in
        let n3 := Byte.to_N b3 in
        let cp := (n0 - 0xF0) * 262144 + (n1 - 0x80) * 4096
                  + (n2 - 0x80) * 64 + (n3 - 0x80) in
        if is_cont n1 && is_cont n2 && is_cont n3
           && (0x10000 <=? cp) && (cp <=? 0x10FFFF) then
          match decode rest3 with
          | Some s => Some (cp :: s)
          | None => None
          end
        else None
      | _ => None
      end
    else None
  end.

Definition encode_cp (cp : N) : option pybytes :=
  if cp <? 0x80 then Some [byte_of_N cp]
  else if cp <? 0x800 then
    Some [byte_of_N (0xC0 + cp / 64); byte_of_N (0x80 + cp mod 64)]
  else if cp <? 0x10000 then
    if is_surrogate cp then None
    else Some [byte_of_N (0xE0 + cp / 4096);
               byte_of_N (0x80 + (cp / 64) mod 64);
               byte_of_N (0x80 + cp mod 64)]
  else if cp <=? 0x10FFFF then
    Some [byte_of_N (0xF0 + cp / 262144);
          byte_of_N (0x80 + (cp / 4096) mod 64);
          byte_of_N (0x80 + (cp / 64) mod 64);
          byte_of_N (0x80 + cp mod 64)]
  else None.

Fixpoint encode (s : pystr) : option pybytes :=
  match s with
  | [] => Some []
  | cp :: s' =>
    match encode_cp cp, encode s' with
    | Some b, Some bs => Some (b ++ bs)
    | _, _ => None
    end
  end.

End Utf8.

(** ** State and exceptions

    A method of [KeyringManager] runs against the state of the secret
    service and either returns or raises; what it changed before raising
    stays changed. *)
Definition M (S A : Type) : Type := S → res A * S.

Definition ret {S A} (a : A) : M S A := λ s, (Ok a, s).

Definition bind {S A B} (m : M S A) (k : A → M S B) : M S B :=
  λ s, match m s with
       | (Ok a, s') => k a s'
       | (Raise e, s') => (Raise e, s')
       end.

Definition raise {S A} (e : exn) : M S A := λ s, (Raise e, s).

(** A pure computation that may raise, run inside a method. *)
Definition lift {S A} (r : res A) : M S A := λ s, (r, s).

Declare Scope py_scope.
Delimit Scope py_scope with py.
Notation "x <- m ;; k" := (bind m (λ x, k))
  (at level 100, m at next level, right associativity) : py_scope.
Notation "m ;;; k" := (bind m (λ _, k))
  (at level 100, right associativity) : py_scope.
Local Open Scope py_scope.

(** ** Attribute codec *)

Definition bytes_decode (b : pybytes) : res pystr :=
  match Utf8.decode b with
  | Some s => Ok s
  | None => Raise UnicodeDecodeError
  end.

Definition str_encode (s : pystr) : res pybytes :=
  match Utf8.encode s with
  | Some b => Ok b
  | None => Raise UnicodeEncodeError
  end.

(** [{k: f(v) for k, v in d.items()}] where [f] may raise. *)
Definition dict_comprehension {A B} (f : A → res B) (d : gmap pystr A)
  : res (gmap pystr B) :=
  map_fold (λ k v acc, res_bind acc (λ d',
                       res_bind (f v) (λ w, Ok (<[k := w]> d'))))
           (Ok ∅) d.

(** [v.decode('utf-8') if isinstance(v, bytes) else v] *)
Definition encode_value (v : value) : res pystr :=
  match v with
  | VBytes b => bytes_decode b
  | VStr s => Ok s
  end.

(** [bytes(v, 'utf-8') if isinstance(v, str) else v] *)
Definition decode_value (v : value) : res value :=
  match v with
  | VStr s => res_bind (str_encode s) (λ b, Ok (VBytes b))
  | VBytes b => Ok (VBytes b)
  end.

Definition _encode_attributes (attributes : gmap pystr value)
  : res (gmap pystr pystr) :=
  dict_comprehension encode_value attributes.

Definition _decode_attributes (attributes : gmap pystr value)
  : res (gmap pystr value) :=
  dict_comprehension decode_value attributes.

(** The service hands out text-only mappings ([Dict[str, str]]); this is
    such a mapping seen as a [Dict[str, Union[str, bytes]]]. *)
Definition wire (d : gmap pystr pystr) : gmap pystr value := VStr <$> d.

(** ** The collection

    The secret service is an opaque keyed store.  An [Item] is an item as
    the service reports it when the collection is enumerated, and its
    setters reach the stored item through [item_path].  The collection is
    the one [main] hands to the commands: resolved and unlocked. *)
Record Item := mkItem {
  item_path : pystr;
  item_label : pystr;
  item_attributes : gmap pystr pystr;
  item_secret : pystr
}.

Global Instance Item_eq_dec : EqDecision Item.
Proof. solve_decision. Defined.

Abbreviation Collection := (list Item).

Definition get_label (item : Item) : pystr := item_label item.
Definition get_attributes (item : Item) : gmap pystr pystr := item_attributes item.
Definition get_secret (item : Item) : pystr := item_secret item.

Definition same_path (item x : Item) : bool :=
  bool_decide (item_path x = item_path item).

Definition get_all_items : M Collection (list Item) := λ c, (Ok c, c).

(** The stored item after [set_secret], and after [set_attributes]. *)
Definition with_secret (x : Item) (secret : pystr) : Item :=
  mkItem (item_path x) (item_label x) (item_attributes x) secret.

Definition with_attributes (x : Item) (attributes : gmap pystr pystr) : Item :=
  mkItem (item_path x) (item_label x) attributes (item_secret x).

Definition set_secret (item : Item) (secret : pystr) : M Collection unit :=
  λ c, (Ok (),
        List.map (λ x, if same_path item x then with_secret x secret else x) c).

Definition set_attributes (item : Item) (attributes : gmap pystr pystr)
  : M Collection unit :=
  λ c, (Ok (),
        List.map (λ x, if same_path item x then with_attributes x attributes
                       else x) c).

Definition delete_ (item : Item) : M Collection unit :=
  λ c, (Ok (), List.filter (λ x, negb (same_path item x)) c).

(** Paths are assigned by the service and identify the items. *)
Definition wf_collection (c : Collection) : Prop := NoDup (item_path <$> c).

(** ** Item matcher *)

(** [all(item_attributes.get(k) == v for k, v in encoded_attributes.items())] *)
Definition matches_attributes (item_attributes encoded_attributes : gmap pystr pystr)
  : bool :=
  forallb (λ kv, bool_decide (item_attributes !! kv.1 = Some kv.2))
          (map_to_list encoded_attributes).

(** [(x is None) or (x == y)] *)
Definition none_or_eq (x : option pystr) (y : pystr) : bool :=
  match x with
  | None => true
  | Some x => bool_decide (x = y)
  end.

Definition AND : pystr := Eval cbv in py "AND".
Definition OR : pystr := Eval cbv in py "OR".

Definition search_items (attributes : option (gmap pystr value))
    (label path : option pystr) (logic : pystr) : M Collection (list Item) :=
  let attributes := default ∅ attributes in
  encoded_attributes <- lift (_encode_attributes attributes) ;;
  items <- get_all_items ;;
  ret (foldl (λ matched_items item,
    let item_attributes := get_attributes item in
    let matches_attributes := matches_attributes item_attributes encoded_attributes in
    let matches_label := none_or_eq label (get_label item) in
    let matches_path := none_or_eq path (item_path item) in
    if bool_decide (logic = AND) then
      if matches_attributes && matches_label && matches_path
      then matched_items ++ [item] else matched_items
    else if bool_decide (logic = OR) then
      if matches_attributes || matches_label || matches_path
      then matched_items ++ [item] else matched_items
    else matched_items) [] items).

(** The decision the loop of [search_items] takes for one item. *)
Definition item_test (encoded_attributes : gmap pystr pystr)
    (label path : option pystr) (logic : pystr) (item : Item) : bool :=
  let matches_attributes := matches_attributes (get_attributes item) encoded_attributes in
  let matches_label := none_or_eq label (get_label item) in
  let matches_path := none_or_eq path (item_path item) in
  if bool_decide (logic = AND) then matches_attributes && matches_label && matches_path
  else if bool_decide (logic = OR) then matches_attributes || matches_label || matches_path
  else false.

(** ** Item mutator *)

(** Truth value of an [Optional[str]] and of an [Optional[Dict]]: [None]
    and the empty value are false. *)
Definition truthy_str (x : option pystr) : option pystr :=
  match x with
  | Some (c :: s) => Some (c :: s)
  | _ => None
  end.

Definition truthy_dict {A} (x : option (gmap pystr A)) : option (gmap pystr A) :=
  match x with
  | Some d => if bool_decide (d = ∅) then None else Some d
  | None => None
  end.

Definition Item_not_found : pystr := Eval cbv in py "Item not found".

(** What [read_item] builds for one item. *)
Record Entry := mkEntry {
  entry_label : pystr;
  entry_attributes : gmap pystr value;
  entry_secret : pystr
}.

(** [read_item] returns one entry or a list of them. *)
Inductive ReadResult :=
| Single (e : Entry)
| Multiple (es : list Entry).

Definition read_entry (item : Item) : res Entry :=
  res_bind (_decode_attributes (wire (get_attributes item))) (λ attributes,
  Ok (mkEntry (get_label item) attributes (get_secret item))).

Fixpoint list_comprehension {A B} (f : A → res B) (l : list A) : res (list B) :=
  match l with
  | [] => Ok []
  | x :: l' =>
    res_bind (f x) (λ y,
    res_bind (list_comprehension f l') (λ ys, Ok (y :: ys)))
  end.

Definition read_item (attributes : option (gmap pystr value))
    (label path : option pystr) (logic : pystr) (multiple : bool)
  : M Collection (option ReadResult) :=
  items <- search_items attributes label path logic ;;
  match items with
  | item :: _ =>
    if multiple then
      result <- lift (list_comprehension read_entry items) ;;
      ret (Some (Multiple result))
    else
      entry <- lift (read_entry item) ;;
      ret (Some (Single entry))
  | [] => ret None
  end.

Definition update_item (attributes : option (gmap pystr value))
    (new_secret : option pystr) (new_attributes : option (gmap pystr value))
    (label path : option pystr) (logic : pystr) (merge : bool)
  : M Collection unit :=
  items <- search_items attributes label path logic ;;
  match items with
  | item :: _ =>
    match truthy_str new_secret with
    | Some new_secret => set_secret item new_secret
    | None => ret ()
    end ;;;
    match truthy_dict new_attributes with
    | Some new_attributes =>
      encoded_new_attributes <- lift (_encode_attributes new_attributes) ;;
      if merge then
        let current_attributes := get_attributes item in
        (* [{**current_attributes, **encoded_new_attributes}]: the right
           operand wins in Python, the left one in [∪] *)
        let merged_attributes := encoded_new_attributes ∪ current_attributes in
        set_attributes item merged_attributes
      else
        set_attributes item encoded_new_attributes
    | None => ret ()
    end
  | [] => raise (ValueError Item_not_found)
  end.

Definition delete_item (attributes : option (gmap pystr value))
    (label path : option pystr) (logic : pystr)
    (delete_attributes : option (gmap pystr value))
  : M Collection unit :=
  items <- search_items attributes label path logic ;;
  match items with
  | item :: _ =>
    match truthy_dict delete_attributes with
    | Some delete_attributes =>
      encoded_delete_attributes <- lift (_encode_attributes delete_attributes) ;;
      let current_attributes := get_attributes item in
      let current_attributes :=
        map_fold (λ attr _ current_attributes,
                    if bool_decide (is_Some (current_attributes !! attr))
                    then delete attr current_attributes
                    else current_attributes)
                 current_attributes encoded_delete_attributes in
      set_attributes item current_attributes
    | None => delete_ item
    end
  | [] => raise (ValueError Item_not_found)
  end.

(** ** Collection gateway: the lock

    What the session sees of the collection's lock: its state, how many
    unlock requests were sent to the service, and the lines written to
    standard error. *)
Record Gateway := mkGateway {
  locked : bool;
  unlock_requests : nat;
  stderr : list pystr
}.

(** The service's answer to one unlock request: whether its prompt was
    dismissed, and the lock state it leaves behind. *)
Record Prompt := mkPrompt {
  dismissed : bool;
  still_locked : bool
}.

(** [self.collection.is_locked()] *)
Definition _locked : M Gateway bool := λ g, (Ok (locked g), g).

(** [self.collection.unlock()] *)
Definition collection_unlock (p : Prompt) : M Gateway bool :=
  λ g, (Ok (dismissed p),
        mkGateway (still_locked p) (S (unlock_requests g)) (stderr g)).

(** [print(line, file=sys.stderr)] *)
Definition print_stderr (line : pystr) : M Gateway unit :=
  λ g, (Ok (), mkGateway (locked g) (unlock_requests g) (stderr g ++ [line])).

Definition msg_locked : pystr :=
  Eval cbv in py "Collection is locked. The Secret Service controls the prompt.".
Definition msg_continue : pystr :=
  Eval cbv in py "Unlocking will continue via service provided GUI.".
Definition msg_dismissed : pystr :=
  Eval cbv in py "Unlock prompt was dismissed by user.".
Definition msg_still_locked (collection_name : pystr) : pystr :=
  py "Collection '" ++ collection_name ++ py "' is still locked. Try again.".

Definition _unlock (collection_name : pystr) (p : Prompt) : M Gateway unit :=
  l <- _locked ;;
  if l then
    print_stderr msg_locked ;;;
    print_stderr msg_continue ;;;
    dismissed <- collection_unlock p ;;
    (if dismissed then print_stderr msg_dismissed else ret ()) ;;;
    l <- _locked ;;
    if l then raise (ValueError (msg_still_locked collection_name))
    else ret ()
  else ret ().

(** ** The specification's vocabulary *)

(** The three facts of the matcher, over the encoded predicate attributes. *)
Definition attrsMatch (encoded : gmap pystr pystr) (item : Item) : Prop :=
  ∀ k v, encoded !! k = Some v → item_attributes item !! k = Some v.

Definition labelMatch (label : option pystr) (item : Item) : Prop :=
  match label with
  | None => True
  | Some l => l = item_label item
  end.

Definition pathMatch (path : option pystr) (item : Item) : Prop :=
  match path with
  | None => True
  | Some p => p = item_path item
  end.

Inductive Logic := ALL | ANY.

(** The combinator as the command line spells it. *)
Definition logic_name (logic : Logic) : pystr :=
  match logic with
  | ALL => AND
  | ANY => OR
  end.

Definition item_matches (encoded : gmap pystr pystr) (label path : option pystr)
    (logic : Logic) (item : Item) : Prop :=
  match logic with
  | ALL => attrsMatch encoded item ∧ labelMatch label item ∧ pathMatch path item
  | ANY => attrsMatch encoded item ∨ labelMatch label item ∨ pathMatch path item
  end.

Global Instance attrsMatch_dec encoded item : Decision (attrsMatch encoded item) :=
  decide (map_Forall (λ k v, item_attributes item !! k = Some v) encoded).

Global Instance labelMatch_dec label item : Decision (labelMatch label item).
Proof. destruct label; simpl; apply _. Defined.

Global Instance pathMatch_dec path item : Decision (pathMatch path item).
Proof. destruct path; simpl; apply _. Defined.

Global Instance item_matches_dec encoded label path logic item :
  Decision (item_matches encoded label path logic item).
Proof. destruct logic; simpl; apply _. Defined.

(** A byte-string value that is valid UTF-8. *)
Definition valid_utf8 (v : value) : bool :=
  match v with
  | VBytes b => bool_decide (is_Some (Utf8.decode b))
  | VStr _ => false
  end.

(** A code point that text can carry: a Unicode scalar value. *)
Definition scalar (cp : N) : bool :=
  negb (Utf8.is_surrogate cp) && (cp <=? 0x10FFFF).

(** The service's attribute values are text. *)
Definition text_attributes (item : Item) : Prop :=
  map_Forall (λ _ s, forallb scalar s = true) (item_attributes item).

(** An entry is the full decoded record of an item: its label, its
    attributes with every text value re-encoded to bytes, its secret. *)
Definition decoded_entry (item : Item) (e : Entry) : Prop :=
  entry_label e = item_label item
  ∧ entry_secret e = item_secret item
  ∧ ∀ k, entry_attributes e !! k
         = item_attributes item !! k ≫= λ s, VBytes <$> Utf8.encode s.

(** ** JSON boundary *)

(** [except ValueError]: the clause catches [ValueError] and its
    subclasses, the two Unicode errors among them. *)
Definition is_ValueError (e : exn) : bool :=
  match e with
  | ValueError _ => true
  | UnicodeDecodeError => true
  | UnicodeEncodeError => true
  end.

(** [decode_bytes], the object hook of [json.loads]: the loop assigns to
    the keys of the dictionary it walks and returns that dictionary. *)
Definition decode_bytes_step (key : pystr) (v : value)
    (acc : res (gmap pystr value)) : res (gmap pystr value) :=
  res_bind acc (λ dct,
    match v with
    | VStr str =>
      match str_encode str with
      | Ok b => Ok (<[key := VBytes b]> dct)
      | Raise e => if is_ValueError e then Ok dct else Raise e
      end
    | VBytes _ => Ok dct
    end).

Definition decode_bytes (dct : gmap pystr value) : res (gmap pystr value) :=
  map_fold decode_bytes_step (Ok dct) dct.

(** What [encode_bytes] does: it returns text, raises what the decoder
    raises, or raises [TypeError] with a message. *)
Inductive Serialized :=
| Text (s : pystr)
| Raises (e : exn)
| RaisesTypeError (msg : pystr).

Definition msg_not_serializable (class_name : pystr) : pystr :=
  py "Object of type " ++ class_name ++ py " is not JSON serializable".

(** [encode_bytes], the [default] of [json.dumps]. *)
Definition encode_bytes (obj : value) : Serialized :=
  match obj with
  | VBytes b =>
    match bytes_decode b with
    | Ok s => Text s
    | Raise e => Raises e
    end
  | VStr _ => RaisesTypeError (msg_not_serializable (py "str"))
  end.

(** ** Collection gateway: resolving and closing *)

(** A collection as the service lists it. *)
Record StoredCollection := mkStoredCollection {
  collection_label : pystr;
  collection_locked : bool;
  collection_items : Collection
}.

Definition msg_collection_not_found (collection_name : pystr) : pystr :=
  py "Collection '" ++ collection_name ++ py "' not found".

(** [get_collection], over [secretstorage.get_all_collections(connection)]. *)
Fixpoint get_collection (collection_name : pystr)
    (collections : list StoredCollection) : res StoredCollection :=
  match collections with
  | [] => Raise (ValueError (msg_collection_not_found collection_name))
  | collection :: collections =>
    if bool_decide (collection_label collection = collection_name)
    then Ok collection
    else get_collection collection_name collections
  end.






(** ** Creating and listing *)

(** [self.collection.create_item(label, attributes, secret, replace=False)]:
    the service stores a new item, under a path of its choosing, and
    hands it back. *)
Definition collection_create_item (new_path label : pystr)
    (attributes : gmap pystr pystr) (secret : pystr) : M Collection Item :=
  λ c, let item := mkItem new_path label attributes secret in
       (Ok item, c ++ [item]).

Definition create_item (new_path item_label : pystr)
    (attributes : gmap pystr value) (secret : pystr) : M Collection Item :=
  encoded_attributes <- lift (_encode_attributes attributes) ;;
  collection_create_item new_path item_label encoded_attributes secret.

(** What [list_items] builds for one item. *)
Record Listing := mkListing {
  listing_label : pystr;
  listing_attributes : gmap pystr value;
  listing_path : pystr
}.

Definition list_items : M Collection (list Listing) :=
  items <- get_all_items ;;
  lift (foldl (λ acc item,
    res_bind acc (λ item_list,
    res_bind (_decode_attributes (wire (get_attributes item))) (λ attributes,
    Ok (item_list ++ [mkListing (get_label item) attributes (item_path item)]))))
    (Ok []) items).

(** ** The command line, after parsing *)

(** [check_prompt_for_secret]: [s or (getpass(...) if s == '' else None)],
    with what the user types at the prompt; the second component tells
    whether the prompt was shown. *)
Definition check_prompt_for_secret (typed : pystr) (s : option pystr)
  : option pystr * bool :=
  match s with
  | Some (c :: str) => (Some (c :: str), false)
  | Some [] => (Some typed, true)
  | None => (None, false)
  end.

(** The gate of [main] on a locked collection: the exit code 2 when
    [--unlock] was not given, the unlock flow when it was. *)
Definition msg_is_locked (collection : pystr) : pystr :=
  py "Keyring collection '" ++ collection
  ++ py "' is locked. Attempt unlock with --unlock.".

Definition main_lock_gate (collection : pystr) (unlock : bool) (p : Prompt)
  : M Gateway (option N) :=
  l <- _locked ;;
  if l then
    print_stderr (msg_is_locked collection) ;;;
    if negb unlock then ret (Some 2)
    else _unlock collection p ;;; ret None
  else ret None.

(** A line of standard output: text, or the text of an exception. *)
Inductive Printed :=
| Line (s : pystr)
| ExceptionText (e : exn).

(** [try: ... except ValueError as e: print(e); retcode = 1] *)
Definition report {S} (m : M S unit) (success : pystr) : M S (list Printed * N) :=
  λ s, match m s with
       | (Ok _, s') => (Ok ([Line success], 0), s')
       | (Raise e, s') =>
         if is_ValueError e then (Ok ([ExceptionText e], 1), s')
         else (Raise e, s')
       end.

(** The [update] command of [main]: the attribute arguments are the
    parsed JSON objects, [new_attributes] is [None] when the argument is
    absent or the empty string. *)
Definition main_update (typed : pystr) (attributes : gmap pystr value)
    (new_secret : option pystr) (new_attributes : option (gmap pystr value))
    (label path : option pystr) (logic : pystr) (replace : bool)
  : M Collection (list Printed * N) :=
  attributes <- lift (decode_bytes attributes) ;;
  let merge := negb replace in
  let new_secret := (check_prompt_for_secret typed new_secret).1 in
  new_attributes <-
    match new_attributes with
    | Some new_attributes =>
      d <- lift (decode_bytes new_attributes) ;; ret (Some d)
    | None => ret None
    end ;;
  report (update_item (Some attributes) new_secret new_attributes label path
                      logic merge)
         (py "Item updated successfully").

(** The [delete] command of [main]. *)
Definition main_delete (attributes : gmap pystr value)
    (label path : option pystr) (logic : pystr)
    (delete_attributes : option (gmap pystr value))
  : M Collection (list Printed * N) :=
  attributes <- lift (decode_bytes attributes) ;;
  delete_attributes <-
    match delete_attributes with
    | Some delete_attributes =>
      d <- lift (decode_bytes delete_attributes) ;; ret (Some d)
    | None => ret None
    end ;;
  report (delete_item (Some attributes) label path logic delete_attributes)
         (py "Item deleted successfully").

(** ** More of the specification's vocabulary *)

(** What the JSON hook makes of one value: text that encodes becomes its
    bytes, anything else stays. *)
Definition hooked (v : value) : value :=
  match v with
  | VStr str =>
    match Utf8.encode str with
    | Some b => VBytes b
    | None => VStr str
    end
  | VBytes b => VBytes b
  end.

(** A listing is what [list_items] shows of an item: its label, its
    path, and its attributes with every text value re-encoded to bytes. *)
Definition listed_item (item : Item) (l : Listing) : Prop :=
  listing_label l = item_label item
  ∧ listing_path l = item_path item
  ∧ ∀ k, listing_attributes l !! k
         = item_attributes item !! k ≫= λ s, VBytes <$> Utf8.encode s.

(** ** Sample data

    A collection of three items, two of them with the same label. *)
Module Sample.

Definition mail1 : Item :=
  mkItem (py "/collection/1") (py "mail") {[ py "k1" := py "v1" ]} (py "hunter2").

Definition mail2 : Item :=
  mkItem (py "/collection/2") (py "mail")
         {[ py "k1" := py "v1"; py "k2" := py "v2" ]} (py "swordfish").

Definition web : Item :=
  mkItem (py "/collection/3") (py "web") ∅ (py "letmein").

Definition collection : Collection := [mail1; mail2; web].

(** ["v2"] as bytes, and as text. *)
Definition v2_bytes : value := VBytes [x76; x32].
Definition v2_text : pystr := Eval cbv in py "v2".

(** ["é"] as bytes: two octets. *)
Definition e_acute : value := VBytes [xc3; xa9].

End Sample.

(** ** Codec lemmas *)

Module Utf8Facts.
Import Utf8.

Lemma byte_of_to_N (b : byte) : byte_of_N (Byte.to_N b) = b.
Proof. unfold byte_of_N. by rewrite Byte.of_to_N. Qed.

Local Ltac arith :=
  repeat match goal with
         | H : _ && _ = true |- _ => apply andb_prop in H; destruct H
         | H : negb _ = true |- _ => apply negb_true_iff in H
         | H : is_cont _ = true |- _ => unfold is_cont in H
         | H : is_surrogate _ = _ |- _ => unfold is_surrogate in H
         | H : _ && _ = false |- _ => apply andb_false_iff in H
         end;
  rewrite ?N.ltb_lt, ?N.ltb_ge, ?N.leb_le, ?N.leb_gt in *.

(** Name the quotient and the remainder of [a / b] for [lia]. *)
Local Ltac divmod a b :=
  let q := fresh "q" in
  let r := fresh "r" in
  pose proof (N.div_mod a b ltac:(lia));
  pose proof (N.mod_lt a b ltac:(lia));
  set (q := a / b) in *; set (r := a mod b) in *; clearbody q r.

(** Side conditions: boolean tests turned into (in)equalities. *)
Local Ltac side :=
  cbv zeta; unfold is_cont, is_surrogate in *;
  rewrite ?andb_true_iff in *;
  rewrite ?negb_true_iff in *;
  rewrite ?andb_false_iff in *;
  rewrite ?N.leb_le, ?N.leb_gt, ?N.ltb_lt, ?N.ltb_ge in *;
  lia.

Local Ltac ltb_true := symmetry; apply N.ltb_lt; lia.
Local Ltac ltb_false := symmetry; apply N.ltb_ge; lia.

(** One decoded code point re-encodes to the octets it was read from. *)
Lemma encode_cp_1 b0 :
  Byte.to_N b0 < 0x80 → encode_cp (Byte.to_N b0) = Some [b0].
Proof.
  intros H. unfold encode_cp.
  by rewrite (proj2 (N.ltb_lt _ _) H), byte_of_to_N.
Qed.

Lemma encode_cp_2 b0 b1 :
  let n0 := Byte.to_N b0 in
  let n1 := Byte.to_N b1 in
  let cp := (n0 - 0xC0) * 64 + (n1 - 0x80) in
  0xC0 ≤ n0 → n0 < 0xE0 → is_cont n1 = true → 0x80 ≤ cp →
  encode_cp cp = Some [b0; b1].
Proof.
  intros n0 n1 cp H0 H0' H1 Hcp. arith. unfold encode_cp.
  assert (Ecp : cp = (n0 - 0xC0) * 64 + (n1 - 0x80)) by reflexivity.
  rewrite <- (byte_of_to_N b0), <- (byte_of_to_N b1).
  fold n0 n1. clearbody cp n0 n1.
  replace (cp <? 0x80) with false by ltb_false.
  replace (cp <? 0x800) with true by ltb_true.
  divmod cp 64.
  by replace (0xC0 + q) with n0 by lia; replace (0x80 + r) with n1 by lia.
Qed.

Lemma encode_cp_3 b0 b1 b2 :
  let n0 := Byte.to_N b0 in
  let n1 := Byte.to_N b1 in
  let n2 := Byte.to_N b2 in
  let cp := (n0 - 0xE0) * 4096 + (n1 - 0x80) * 64 + (n2 - 0x80) in
  0xE0 ≤ n0 → n0 < 0xF0 → is_cont n1 = true → is_cont n2 = true →
  0x800 ≤ cp → is_surrogate cp = false →
  encode_cp cp = Some [b0; b1; b2].
Proof.
  intros n0 n1 n2 cp H0 H0' H1 H2 Hcp Hsur. unfold encode_cp.
  rewrite Hsur. arith.
  assert (Ecp : cp = (n0 - 0xE0) * 4096 + (n1 - 0x80) * 64 + (n2 - 0x80))
    by reflexivity.
  rewrite <- (byte_of_to_N b0), <- (byte_of_to_N b1), <- (byte_of_to_N b2).
  fold n0 n1 n2. clearbody cp n0 n1 n2.
  replace (cp <? 0x80) with false by ltb_false.
  replace (cp <? 0x800) with false by ltb_false.
  replace (cp <? 0x10000) with true by ltb_true.
  replace (cp / 4096) with (cp / 64 / 64) by (by rewrite N.Div0.div_div).
  divmod cp 64. divmod q 64.
  by replace (0xE0 + q0) with n0 by lia; replace (0x80 + r0) with n1 by lia;
     replace (0x80 + r) with n2 by lia.
Qed.

Lemma encode_cp_4 b0 b1 b2 b3 :
  let n0 := Byte.to_N b0 in
  let n1 := Byte.to_N b1 in
  let n2 := Byte.to_N b2 in
  let n3 := Byte.to_N b3 in
  let cp := (n0 - 0xF0) * 262144 + (n1 - 0x80) * 4096
            + (n2 - 0x80) * 64 + (n3 - 0x80) in
  0xF0 ≤ n0 → is_cont n1 = true → is_cont n2 = true → is_cont n3 = true →
  0x10000 ≤ cp → cp ≤ 0x10FFFF →
  encode_cp cp = Some [b0; b1; b2; b3].
Proof.
  intros n0 n1 n2 n3 cp H0 H1 H2 H3 Hcp Hcp'. arith. unfold encode_cp.
  assert (Ecp : cp = (n0 - 0xF0) * 262144 + (n1 - 0x80) * 4096
                     + (n2 - 0x80) * 64 + (n3 - 0x80)) by reflexivity.
  rewrite <- (byte_of_to_N b0), <- (byte_of_to_N b1),
          <- (byte_of_to_N b2), <- (byte_of_to_N b3).
  fold n0 n1 n2 n3. clearbody cp n0 n1 n2 n3.
  replace (cp <? 0x80) with false by ltb_false.
  replace (cp <? 0x800) with false by ltb_false.
  replace (cp <? 0x10000) with false by ltb_false.
  replace (cp <=? 0x10FFFF) with true by (symmetry; apply N.leb_le; lia).
  replace (cp / 262144) with (cp / 64 / 64 / 64) by (by rewrite !N.Div0.div_div).
  replace (cp / 4096) with (cp / 64 / 64) by (by rewrite N.Div0.div_div).
  divmod cp 64. divmod q 64. divmod q0 64.
  by replace (0xF0 + q1) with n0 by lia; replace (0x80 + r1) with n1 by lia;
     replace (0x80 + r0) with n2 by lia; replace (0x80 + r) with n3 by lia.
Qed.

(** Decoding then encoding gives the octets back: every byte string the
    strict decoder accepts is the encoding of what it decodes to. *)
Lemma encode_decode bs s : decode bs = Some s → encode s = Some bs.
Proof.
  remember (length bs) as n eqn:Hn.
  assert (Hle : (length bs ≤ n)%nat) by lia. clear Hn.
  revert bs s Hle. induction n as [|n IH]; intros bs s Hle.
  { destruct bs; [|simpl in Hle; lia]. by intros [= <-]. }
  destruct bs as [|b0 rest0]; [by intros [= <-]|].
  cbn [decode].
  destruct (Byte.to_N b0 <? 0x80) eqn:E0.
  { destruct (decode rest0) as [s'|] eqn:Hd; [|done]. intros [= <-].
    cbn [encode]. rewrite (encode_cp_1 b0) by side.
    rewrite (IH rest0 s'); [done| simpl in Hle; lia |done]. }
  destruct (Byte.to_N b0 <? 0xC0) eqn:E1; [done|].
  destruct (Byte.to_N b0 <? 0xE0) eqn:E2.
  { destruct rest0 as [|b1 rest1]; [done|].
    match goal with |- context [if ?c then _ else _] => destruct c eqn:Ec end;
      [|done].
    destruct (decode rest1) as [s'|] eqn:Hd; [|done]. intros [= <-].
    cbn [encode]. rewrite (encode_cp_2 b0 b1) by side.
    rewrite (IH rest1 s'); [done| simpl in Hle; lia |done]. }
  destruct (Byte.to_N b0 <? 0xF0) eqn:E3.
  { destruct rest0 as [|b1 [|b2 rest2]]; [done..|].
    match goal with |- context [if ?c then _ else _] => destruct c eqn:Ec end;
      [|done].
    destruct (decode rest2) as [s'|] eqn:Hd; [|done]. intros [= <-].
    cbn [encode]. rewrite (encode_cp_3 b0 b1 b2) by side.
    rewrite (IH rest2 s'); [done| simpl in Hle; lia |done]. }
  destruct (Byte.to_N b0 <? 0xF8) eqn:E4; [|done].
  destruct rest0 as [|b1 [|b2 [|b3 rest3]]]; [done..|].
  match goal with |- context [if ?c then _ else _] => destruct c eqn:Ec end;
    [|done].
  destruct (decode rest3) as [s'|] eqn:Hd; [|done]. intros [= <-].
  cbn [encode]. rewrite (encode_cp_4 b0 b1 b2 b3) by side.
  rewrite (IH rest3 s'); [done| simpl in Hle; lia |done].
Qed.

End Utf8Facts.

(** ** Dictionaries *)

Section dict.
Context {A B : Type} (f : A → res B).

(** What a comprehension returns, key by key; and where it raises. *)
Lemma dict_comprehension_spec (d : gmap pystr A) :
  match dict_comprehension f d with
  | Ok d' => ∀ k, match d !! k with
                  | Some v => ∃ w, f v = Ok w ∧ d' !! k = Some w
                  | None => d' !! k = None
                  end
  | Raise e => ∃ k v, d !! k = Some v ∧ f v = Raise e
  end.
Proof.
  unfold dict_comprehension.
  apply (map_fold_weak_ind (λ r d,
    match r with
    | Ok d' => ∀ k, match d !! k with
                    | Some v => ∃ w, f v = Ok w ∧ d' !! k = Some w
                    | None => d' !! k = None
                    end
    | Raise e => ∃ k v, d !! k = Some v ∧ f v = Raise e
    end)).
  { intros k. by rewrite !lookup_empty. }
  clear d. intros i x d r Hi IH. destruct r as [d'|e]; simpl.
  - destruct (f x) as [w|e] eqn:Hx; simpl.
    + intros k. destruct (decide (i = k)) as [->|Hne].
      * rewrite !lookup_insert_eq. eauto.
      * rewrite !lookup_insert_ne by done. apply IH.
    + exists i, x. by rewrite lookup_insert_eq.
  - destruct IH as (k & v & Hk & Hv). exists k, v. split; [|done].
    rewrite lookup_insert_ne; [done|]. intros ->. congruence.
Qed.

Lemma dict_comprehension_Ok (d : gmap pystr A) d' k :
  dict_comprehension f d = Ok d' →
  match d !! k with
  | Some v => ∃ w, f v = Ok w ∧ d' !! k = Some w
  | None => d' !! k = None
  end.
Proof.
  intros H. pose proof (dict_comprehension_spec d) as Hs.
  rewrite H in Hs. apply Hs.
Qed.

(** A comprehension whose body never raises returns. *)
Lemma dict_comprehension_total (d : gmap pystr A) :
  (∀ k v, d !! k = Some v → ∃ w, f v = Ok w) →
  ∃ d', dict_comprehension f d = Ok d'.
Proof.
  intros Hall. pose proof (dict_comprehension_spec d) as Hs.
  destruct (dict_comprehension f d) as [d'|e]; [eauto|].
  destruct Hs as (k & v & Hk & Hv).
  destruct (Hall k v Hk) as [w Hw]. congruence.
Qed.

Lemma dict_comprehension_empty : dict_comprehension f ∅ = Ok ∅.
Proof. unfold dict_comprehension. by rewrite map_fold_empty. Qed.

Lemma dict_comprehension_dom (d : gmap pystr A) d' k :
  dict_comprehension f d = Ok d' → d' !! k = None ↔ d !! k = None.
Proof.
  intros H. pose proof (dict_comprehension_Ok d d' k H) as Hk.
  destruct (d !! k) as [v|]; [|done].
  destruct Hk as (w & _ & ->). done.
Qed.

End dict.

(** The deletion loop of [delete_item] removes the keys of its second
    dictionary and nothing else. *)
Lemma delete_loop_lookup {A : Type} (current : gmap pystr pystr) (keys : gmap pystr A) k :
  map_fold (λ attr _ current_attributes,
              if bool_decide (is_Some (current_attributes !! attr))
              then delete attr current_attributes
              else current_attributes) current keys !! k
  = match keys !! k with
    | Some _ => None
    | None => current !! k
    end.
Proof.
  apply (map_fold_weak_ind (λ r keys,
    r !! k = match keys !! k with Some _ => None | None => current !! k end)).
  { by rewrite lookup_empty. }
  clear keys. intros i x keys r Hi IH.
  destruct (decide (i = k)) as [->|Hne].
  - rewrite lookup_insert_eq. case_bool_decide as Hr.
    + by rewrite lookup_delete_eq.
    + by apply eq_None_not_Some.
  - rewrite lookup_insert_ne by done. rewrite <- IH.
    case_bool_decide; [by rewrite lookup_delete_ne|done].
Qed.

(** The encoded attributes have the keys of the attributes. *)
Lemma _encode_attributes_keys attributes encoded k :
  _encode_attributes attributes = Ok encoded →
  encoded !! k = None ↔ attributes !! k = None.
Proof. apply dict_comprehension_dom. Qed.

Lemma _encode_attributes_nonempty attributes encoded :
  _encode_attributes attributes = Ok encoded → attributes ≠ ∅ → encoded ≠ ∅.
Proof.
  intros H Hne ->. apply Hne. apply map_empty. intros k.
  by apply (_encode_attributes_keys _ _ k H), lookup_empty.
Qed.

(** ** Item matcher *)

Lemma matches_attributes_spec (attrs encoded : gmap pystr pystr) :
  matches_attributes attrs encoded = true
  ↔ ∀ k v, encoded !! k = Some v → attrs !! k = Some v.
Proof.
  unfold matches_attributes. rewrite forallb_forall. split.
  - intros H k v Hkv.
    assert (Hin : In (k, v) (map_to_list encoded))
      by by apply list_elem_of_In, elem_of_map_to_list.
    apply H in Hin. by apply bool_decide_eq_true in Hin.
  - intros H [k v] Hin. apply bool_decide_eq_true. simpl.
    by apply H, elem_of_map_to_list, list_elem_of_In.
Qed.

Lemma none_or_eq_spec x y :
  none_or_eq x y = true ↔ match x with None => True | Some x => x = y end.
Proof. destruct x; simpl; [apply bool_decide_eq_true|done]. Qed.

(** [search_items] leaves the collection as it is, raises what the
    encoding of the predicate raises, and otherwise filters. *)
Lemma search_items_run attributes label path logic c :
  search_items attributes label path logic c
  = (match _encode_attributes (default ∅ attributes) with
     | Ok encoded => Ok (List.filter (item_test encoded label path logic) c)
     | Raise e => Raise e
     end, c).
Proof.
  unfold search_items, bind, lift, get_all_items, ret.
  destruct (_encode_attributes (default ∅ attributes)) as [enc|e]; [|done].
  f_equal. f_equal.
  match goal with |- foldl ?body [] c = _ =>
    enough (Hloop : ∀ matched_items,
      foldl body matched_items c
      = matched_items ++ List.filter (item_test enc label path logic) c)
      by apply Hloop
  end.
  induction c as [|item c IH]; intros matched_items; simpl.
  { by rewrite app_nil_r. }
  rewrite IH. unfold item_test.
  destruct (bool_decide (logic = AND)).
  { destruct (_ && _ && _); [by rewrite <- app_assoc|done]. }
  destruct (bool_decide (logic = OR)); [|done].
  destruct (_ || _ || _); [by rewrite <- app_assoc|done].
Qed.

Lemma item_test_matches encoded label path logic item :
  item_test encoded label path (logic_name logic) item = true
  ↔ item_matches encoded label path logic item.
Proof.
  unfold item_test, item_matches, attrsMatch, labelMatch, pathMatch,
    get_attributes, get_label.
  destruct logic; simpl.
  - rewrite !andb_true_iff, matches_attributes_spec, !none_or_eq_spec. tauto.
  - rewrite !orb_true_iff, matches_attributes_spec, !none_or_eq_spec. tauto.
Qed.

Lemma filter_bool_Prop {X} (test : X → bool) (P : X → Prop)
    `{∀ x, Decision (P x)} (l : list X) :
  (∀ x, test x = true ↔ P x) → List.filter test l = filter P l.
Proof.
  intros Htest. induction l as [|x l IH]; [done|]. simpl.
  destruct (decide (P x)) as [HP|HP].
  - rewrite filter_cons_True by done.
    rewrite (proj2 (Htest x) HP). by f_equal.
  - rewrite filter_cons_False by done.
    destruct (test x) eqn:Hx; [|done]. by apply Htest in Hx.
Qed.

(** C1. With the predicate's attributes encoded, [search_items] returns
    exactly the items of the collection for which the combinator holds
    over [attrsMatch], [labelMatch] and [pathMatch], in enumeration
    order: all three under ALL, at least one under ANY.  The collection
    itself is left as it was. *)
Theorem search_items_matches c attributes label path logic encoded :
  _encode_attributes (default ∅ attributes) = Ok encoded →
  search_items attributes label path (logic_name logic) c
  = (Ok (filter (item_matches encoded label path logic) c), c).
Proof.
  intros Henc. rewrite search_items_run, Henc. do 2 f_equal.
  apply filter_bool_Prop. intros item. apply item_test_matches.
Qed.

Lemma search_items_matches_witness :
  let encoded : gmap pystr pystr := {[ py "k2" := Sample.v2_text ]} in
  search_items (Some {[ py "k2" := Sample.v2_bytes ]}) (Some (py "web")) None
               (logic_name ANY) Sample.collection
  = (Ok (filter (item_matches encoded (Some (py "web")) None ANY)
                Sample.collection),
     Sample.collection).
Proof.
  intros encoded.
  apply (search_items_matches Sample.collection
           (Some {[ py "k2" := Sample.v2_bytes ]}) (Some (py "web")) None ANY
           encoded).
  vm_compute. reflexivity.
Defined.

(** The matches the specification lists as tests: by path alone one of
    the two items labelled alike, by label alone both; and all three
    filters under ANY. *)
Example search_items_by_path :
  (search_items None None (Some (py "/collection/2")) AND Sample.collection).1
  = Ok [Sample.mail2].
Proof. vm_compute. reflexivity. Qed.

Example search_items_by_label :
  (search_items None (Some (py "mail")) None AND Sample.collection).1
  = Ok [Sample.mail1; Sample.mail2].
Proof. vm_compute. reflexivity. Qed.

Example search_items_any :
  (search_items (Some {[ py "k2" := Sample.v2_bytes ]}) (Some (py "web"))
                (Some (py "/collection/1")) OR Sample.collection).1
  = Ok [Sample.mail1; Sample.mail2; Sample.web]
  ∧ (search_items (Some {[ py "k2" := Sample.v2_bytes ]}) (Some (py "web"))
                  (Some (py "/nowhere")) OR Sample.collection).1
    = Ok [Sample.mail2; Sample.web].
Proof. vm_compute. done. Qed.

(** A combinator that is neither of the two matches nothing. *)
Example search_items_other_logic :
  (search_items None None None (py "XOR") Sample.collection).1 = Ok [].
Proof. vm_compute. reflexivity. Qed.

(** C6. With no attribute filter, no label and no path, [search_items]
    returns every item of the collection, under ANY and under ALL,
    whether the attributes are left out or given empty. *)
Theorem search_items_empty_predicate c logic :
  search_items None None None (logic_name logic) c = (Ok c, c)
  ∧ search_items (Some ∅) None None (logic_name logic) c = (Ok c, c).
Proof.
  assert (Hall : List.filter (item_test ∅ None None (logic_name logic)) c = c).
  { induction c as [|item c IH]; [done|]. simpl.
    replace (item_test ∅ None None (logic_name logic) item) with true.
    - by f_equal.
    - symmetry. apply item_test_matches.
      destruct logic; simpl; unfold attrsMatch;
        [split; [|done] | left]; intros k v; by rewrite lookup_empty. }
  split; rewrite search_items_run; simpl;
    unfold _encode_attributes; rewrite dict_comprehension_empty;
    by rewrite Hall.
Qed.

(** ** The store *)

Lemma same_path_true item x : item_path x = item_path item → same_path item x = true.
Proof. intros H. by apply bool_decide_eq_true. Qed.

Lemma same_path_false item x : item_path x ≠ item_path item → same_path item x = false.
Proof. intros H. by apply bool_decide_eq_false. Qed.

(** In a well-formed collection an item is the only one with its path. *)
Lemma wf_split c item :
  wf_collection c → In item c →
  ∃ l1 l2, c = l1 ++ item :: l2
    ∧ Forall (λ x, item_path x ≠ item_path item) l1
    ∧ Forall (λ x, item_path x ≠ item_path item) l2.
Proof.
  intros Hwf Hin. apply in_split in Hin as (l1 & l2 & ->).
  exists l1, l2. split; [done|].
  unfold wf_collection in Hwf. rewrite fmap_app, fmap_cons in Hwf.
  apply NoDup_app in Hwf as (_ & Hl1 & Hl2).
  apply NoDup_cons in Hl2 as [Hl2 _].
  split; apply Forall_forall; intros x Hx Heq.
  - apply (Hl1 (item_path x)).
    + by apply list_elem_of_fmap_2.
    + rewrite Heq. apply list_elem_of_here.
  - apply Hl2. rewrite <- Heq. by apply list_elem_of_fmap_2.
Qed.

(** The first item a filter accepts splits a well-formed collection
    into the items before it, none of which is accepted, and the items
    after it. *)
Lemma first_match_split (test : Item → bool) c item rest :
  wf_collection c → List.filter test c = item :: rest →
  ∃ l1 l2, c = l1 ++ item :: l2
    ∧ Forall (λ x, item_path x ≠ item_path item) l1
    ∧ Forall (λ x, item_path x ≠ item_path item) l2
    ∧ List.filter test l1 = [].
Proof.
  intros Hwf Hf.
  assert (Hin : In item c).
  { apply (filter_In test). rewrite Hf. by left. }
  destruct (wf_split c item Hwf Hin) as (l1 & l2 & -> & H1 & H2).
  exists l1, l2. repeat split; try done.
  rewrite List.filter_app in Hf.
  destruct (List.filter test l1) as [|y ys] eqn:Hl1; [done|].
  injection Hf as -> _.
  assert (Hy : In item l1).
  { apply (filter_In test). rewrite Hl1. by left. }
  rewrite Forall_forall in H1. by destruct (H1 item (proj2 (list_elem_of_In _ _) Hy)).
Qed.

Section store.
Context (item x : Item) (l1 l2 : list Item).
Hypothesis Hx : item_path x = item_path item.
Hypothesis H1 : Forall (λ y, item_path y ≠ item_path item) l1.
Hypothesis H2 : Forall (λ y, item_path y ≠ item_path item) l2.

Lemma map_other (f : Item → Item) l :
  Forall (λ y, item_path y ≠ item_path item) l →
  List.map (λ y, if same_path item y then f y else y) l = l.
Proof.
  induction 1 as [|y l Hy _ IH]; [done|]. simpl.
  by rewrite same_path_false, IH.
Qed.

Lemma filter_other l :
  Forall (λ y, item_path y ≠ item_path item) l →
  List.filter (λ y, negb (same_path item y)) l = l.
Proof.
  induction 1 as [|y l Hy _ IH]; [done|]. simpl.
  by rewrite same_path_false, IH.
Qed.

(** A setter changes the stored item with the path and no other. *)
Lemma set_secret_split secret :
  set_secret item secret (l1 ++ x :: l2) = (Ok (), l1 ++ with_secret x secret :: l2).
Proof.
  unfold set_secret. f_equal. rewrite map_app. simpl.
  by rewrite !map_other, same_path_true.
Qed.

Lemma set_attributes_split attributes :
  set_attributes item attributes (l1 ++ x :: l2)
  = (Ok (), l1 ++ with_attributes x attributes :: l2).
Proof.
  unfold set_attributes. f_equal. rewrite map_app. simpl.
  by rewrite !map_other, same_path_true.
Qed.

(** Deleting removes the stored item with the path and no other. *)
Lemma delete_split : delete_ item (l1 ++ x :: l2) = (Ok (), l1 ++ l2).
Proof.
  unfold delete_. f_equal. rewrite List.filter_app. simpl.
  by rewrite !filter_other, same_path_true.
Qed.

End store.

(** ** Item mutator *)

(** A search that returns a first item: the predicate encodes and the
    collection splits around that item. *)
Lemma search_first_split attributes label path logic c item rest :
  wf_collection c →
  (search_items attributes label path logic c).1 = Ok (item :: rest) →
  ∃ l1 l2, c = l1 ++ item :: l2
    ∧ Forall (λ x, item_path x ≠ item_path item) l1
    ∧ Forall (λ x, item_path x ≠ item_path item) l2
    ∧ (search_items attributes label path logic l1).1 = Ok [].
Proof.
  intros Hwf. rewrite search_items_run. simpl.
  destruct (_encode_attributes (default ∅ attributes)) as [enc|e] eqn:Henc;
    [|done].
  intros [= Hf].
  destruct (first_match_split _ c item rest Hwf Hf) as (l1 & l2 & -> & H1 & H2 & Hl1).
  exists l1, l2. repeat split; try done.
  rewrite search_items_run, Henc. simpl. by rewrite Hl1.
Qed.

(** What [update_item] and [delete_item] do once the search has returned
    a first item: the collection splits around that item, and both act
    on it alone. *)
Lemma mutators_run attributes label path logic c item rest :
  wf_collection c →
  (search_items attributes label path logic c).1 = Ok (item :: rest) →
  ∃ l1 l2, c = l1 ++ item :: l2
    ∧ Forall (λ x, item_path x ≠ item_path item) (l1 ++ l2)
    ∧ (search_items attributes label path logic l1).1 = Ok []
    ∧ (∀ new_secret new_attributes merge,
       update_item attributes new_secret new_attributes label path logic merge c
       = let item1 := from_option (with_secret item) item (truthy_str new_secret) in
         match truthy_dict new_attributes with
         | None => (Ok (), l1 ++ item1 :: l2)
         | Some new_attributes =>
           match _encode_attributes new_attributes with
           | Raise e => (Raise e, l1 ++ item1 :: l2)
           | Ok encoded =>
             (Ok (), l1 ++ with_attributes item1
                             (if merge then encoded ∪ item_attributes item
                              else encoded) :: l2)
           end
         end)
    ∧ (∀ delete_attributes,
       delete_item attributes label path logic delete_attributes c
       = match truthy_dict delete_attributes with
         | None => (Ok (), l1 ++ l2)
         | Some delete_attributes =>
           match _encode_attributes delete_attributes with
           | Raise e => (Raise e, l1 ++ item :: l2)
           | Ok encoded =>
             (Ok (), l1 ++ with_attributes item
                             (filter (λ kv, encoded !! kv.1 = None)
                                     (item_attributes item)) :: l2)
           end
         end).
Proof.
  intros Hwf Hs.
  destruct (search_first_split _ _ _ _ _ _ _ Hwf Hs) as (l1 & l2 & Hc & H1 & H2 & Hl1).
  exists l1, l2. split; [done|]. split; [by apply Forall_app|]. split; [done|].
  destruct (search_items attributes label path logic c) as [r c'] eqn:Hrun.
  rewrite search_items_run in Hrun. injection Hrun as Hr <-.
  simpl in Hs. subst r.
  assert (Hsearch : search_items attributes label path logic c
                    = (Ok (item :: rest), c)).
  { rewrite search_items_run. by rewrite Hs. }
  clear Hs. split.
  - intros new_secret new_attributes merge.
    unfold update_item, bind at 1. rewrite Hsearch. subst c.
    set (item1 := from_option (with_secret item) item (truthy_str new_secret)).
    assert (Hsecret :
      match truthy_str new_secret with
      | Some s => set_secret item s
      | None => ret ()
      end (l1 ++ item :: l2) = (Ok (), l1 ++ item1 :: l2)).
    { subst item1. destruct (truthy_str new_secret) as [s|]; simpl; [|done].
      by apply set_secret_split. }
    unfold bind. rewrite Hsecret.
    assert (Hpath : item_path item1 = item_path item).
    { subst item1. by destruct (truthy_str new_secret). }
    destruct (truthy_dict new_attributes) as [na|]; [|done].
    unfold lift. destruct (_encode_attributes na) as [enc|e]; [|done].
    destruct merge; by apply set_attributes_split.
  - intros delete_attributes.
    unfold delete_item, bind at 1. rewrite Hsearch. subst c.
    destruct (truthy_dict delete_attributes) as [da|]; [|by apply delete_split].
    unfold bind, lift. destruct (_encode_attributes da) as [enc|e]; [|done].
    rewrite set_attributes_split by done. do 4 f_equal.
    apply map_eq. intros k. rewrite delete_loop_lookup.
    unfold get_attributes.
    destruct (enc !! k) as [v|] eqn:Hk.
    + symmetry. apply map_lookup_filter_None. right. intros w _. simpl. congruence.
    + destruct (item_attributes item !! k) as [w|] eqn:Hw.
      * symmetry. by apply map_lookup_filter_Some.
      * symmetry. apply map_lookup_filter_None. by left.
Qed.

Lemma update_item_run attributes new_secret new_attributes label path logic
    merge c item rest :
  wf_collection c →
  (search_items attributes label path logic c).1 = Ok (item :: rest) →
  ∃ l1 l2, c = l1 ++ item :: l2
    ∧ (search_items attributes label path logic l1).1 = Ok []
    ∧ update_item attributes new_secret new_attributes label path logic merge c
      = let item1 := from_option (with_secret item) item (truthy_str new_secret) in
        match truthy_dict new_attributes with
        | None => (Ok (), l1 ++ item1 :: l2)
        | Some new_attributes =>
          match _encode_attributes new_attributes with
          | Raise e => (Raise e, l1 ++ item1 :: l2)
          | Ok encoded =>
            (Ok (), l1 ++ with_attributes item1
                            (if merge then encoded ∪ item_attributes item
                             else encoded) :: l2)
          end
        end.
Proof.
  intros Hwf Hs.
  destruct (mutators_run _ _ _ _ _ _ _ Hwf Hs) as (l1 & l2 & Hc & _ & Hl1 & Hu & _).
  exists l1, l2. by rewrite Hu.
Qed.

Lemma delete_item_run attributes label path logic c item rest :
  wf_collection c →
  (search_items attributes label path logic c).1 = Ok (item :: rest) →
  ∃ l1 l2, c = l1 ++ item :: l2
    ∧ Forall (λ x, item_path x ≠ item_path item) (l1 ++ l2)
    ∧ (search_items attributes label path logic l1).1 = Ok []
    ∧ ∀ delete_attributes,
      delete_item attributes label path logic delete_attributes c
      = match truthy_dict delete_attributes with
        | None => (Ok (), l1 ++ l2)
        | Some delete_attributes =>
          match _encode_attributes delete_attributes with
          | Raise e => (Raise e, l1 ++ item :: l2)
          | Ok encoded =>
            (Ok (), l1 ++ with_attributes item
                            (filter (λ kv, encoded !! kv.1 = None)
                                    (item_attributes item)) :: l2)
          end
        end.
Proof.
  intros Hwf Hs.
  destruct (mutators_run _ _ _ _ _ _ _ Hwf Hs) as (l1 & l2 & Hc & Ho & Hl1 & _ & Hd).
  by exists l1, l2.
Qed.

(** The attribute codec raises nothing but the decoder's error. *)
Lemma _encode_attributes_raises attributes e :
  _encode_attributes attributes = Raise e → e = UnicodeDecodeError.
Proof.
  intros H. pose proof (dict_comprehension_spec encode_value attributes) as Hs.
  unfold _encode_attributes in H. rewrite H in Hs.
  destruct Hs as (k & [str|b] & _ & Hv); simpl in Hv; [done|].
  unfold bytes_decode in Hv. destruct (Utf8.decode b); congruence.
Qed.

Lemma search_items_raises attributes label path logic c e :
  (search_items attributes label path logic c).1 = Raise e →
  e = UnicodeDecodeError.
Proof.
  rewrite search_items_run. simpl.
  destruct (_encode_attributes (default ∅ attributes)) eqn:Henc; [done|].
  intros [= <-]. by apply _encode_attributes_raises in Henc.
Qed.

(** [update_item] and [delete_item] when the search returns no item, and
    when it raises. *)
Lemma mutators_without_match attributes new_secret new_attributes label path
    logic merge delete_attributes c :
  match (search_items attributes label path logic c).1 with
  | Ok [] =>
    update_item attributes new_secret new_attributes label path logic merge c
    = (Raise (ValueError Item_not_found), c)
    ∧ delete_item attributes label path logic delete_attributes c
      = (Raise (ValueError Item_not_found), c)
  | Ok (_ :: _) => True
  | Raise e =>
    update_item attributes new_secret new_attributes label path logic merge c
    = (Raise e, c)
    ∧ delete_item attributes label path logic delete_attributes c
      = (Raise e, c)
  end.
Proof.
  unfold update_item, delete_item, bind.
  destruct (search_items attributes label path logic c) as [r c'] eqn:Hrun.
  rewrite search_items_run in Hrun. injection Hrun as Hr <-.
  simpl. by destruct r as [[|item rest]|e].
Qed.

Lemma truthy_dict_nonempty {A} (d : gmap pystr A) :
  d ≠ ∅ → truthy_dict (Some d) = Some d.
Proof. intros H. unfold truthy_dict. by rewrite bool_decide_eq_false_2. Qed.

(** C2. When the search returns a first item and a non-empty mapping of
    new attributes is given (and encodes), [update_item] returns and
    only that item's attributes change: with [merge] they become the
    union of the current and the encoded new attributes, the new value
    winning on a common key; without [merge] they become the encoded new
    attributes alone, so every key absent from the new attributes is
    gone. *)
Theorem update_item_new_attributes attributes new_secret new_attributes label
    path logic merge c item rest encoded :
  wf_collection c →
  (search_items attributes label path logic c).1 = Ok (item :: rest) →
  new_attributes ≠ ∅ →
  _encode_attributes new_attributes = Ok encoded →
  ∃ l1 l2 item',
    c = l1 ++ item :: l2
    ∧ update_item attributes new_secret (Some new_attributes) label path
                  logic merge c = (Ok (), l1 ++ item' :: l2)
    ∧ item_path item' = item_path item
    ∧ item_label item' = item_label item
    ∧ if merge
      then ∀ k, item_attributes item' !! k
                = match encoded !! k with
                  | Some v => Some v
                  | None => item_attributes item !! k
                  end
      else item_attributes item' = encoded
           ∧ ∀ k, new_attributes !! k = None → item_attributes item' !! k = None.
Proof.
  intros Hwf Hs Hne Henc.
  destruct (update_item_run attributes new_secret (Some new_attributes) label
              path logic merge c item rest Hwf Hs) as (l1 & l2 & Hc & _ & Hrun).
  rewrite truthy_dict_nonempty, Henc in Hrun by done. simpl in Hrun.
  eexists l1, l2, _. split; [done|]. split; [exact Hrun|].
  repeat split.
  - by destruct (truthy_str new_secret).
  - by destruct (truthy_str new_secret).
  - destruct merge; simpl.
    + intros k. destruct (encoded !! k) as [v|] eqn:Hk.
      * by apply lookup_union_Some_l.
      * by rewrite lookup_union_r.
    + split; [done|]. intros k Hk.
      by apply (_encode_attributes_keys _ _ k Henc).
Qed.

Lemma update_item_new_attributes_witness :
  let new_attributes : gmap pystr value := {[ py "k2" := Sample.v2_bytes ]} in
  let encoded : gmap pystr pystr := {[ py "k2" := Sample.v2_text ]} in
  ∃ l1 l2 item',
    Sample.collection = l1 ++ Sample.mail1 :: l2
    ∧ update_item None None (Some new_attributes) (Some (py "mail")) None AND
                  true Sample.collection = (Ok (), l1 ++ item' :: l2)
    ∧ item_path item' = item_path Sample.mail1
    ∧ item_label item' = item_label Sample.mail1
    ∧ ∀ k, item_attributes item' !! k
           = match encoded !! k with
             | Some v => Some v
             | None => item_attributes Sample.mail1 !! k
             end.
Proof.
  intros new_attributes encoded.
  apply (update_item_new_attributes None None new_attributes (Some (py "mail"))
           None AND true Sample.collection Sample.mail1 [Sample.mail2] encoded).
  - apply (bool_decide_unpack _). vm_compute. exact I.
  - vm_compute. reflexivity.
  - apply (bool_decide_unpack _). vm_compute. exact I.
  - vm_compute. reflexivity.
Defined.

(** The two updates the specification lists as tests. *)
Example update_item_merge :
  update_item None None (Some {[ py "k2" := Sample.v2_bytes ]}) None
              (Some (py "/collection/1")) AND true Sample.collection
  = (Ok (), [with_attributes Sample.mail1
               {[ py "k1" := py "v1"; py "k2" := py "v2" ]};
             Sample.mail2; Sample.web]).
Proof. vm_compute. reflexivity. Qed.

Example update_item_replace :
  update_item None None (Some {[ py "k2" := Sample.v2_bytes ]}) None
              (Some (py "/collection/1")) AND false Sample.collection
  = (Ok (), [with_attributes Sample.mail1 {[ py "k2" := py "v2" ]};
             Sample.mail2; Sample.web]).
Proof. vm_compute. reflexivity. Qed.

(** C7, as the code has it.  When the search returns a first item and a
    non-empty new secret is given, [update_item] leaves that item with the
    new secret, whatever else it is asked to do: also when the new
    attributes then fail to encode and the call raises. *)
Theorem update_item_new_secret attributes secret new_attributes label path
    logic merge c item rest :
  wf_collection c →
  (search_items attributes label path logic c).1 = Ok (item :: rest) →
  secret ≠ [] →
  ∃ l1 l2 item',
    c = l1 ++ item :: l2
    ∧ (update_item attributes (Some secret) new_attributes label path logic
                   merge c).2 = l1 ++ item' :: l2
    ∧ item_path item' = item_path item
    ∧ item_label item' = item_label item
    ∧ item_secret item' = secret.
Proof.
  intros Hwf Hs Hne.
  destruct (update_item_run attributes (Some secret) new_attributes label
              path logic merge c item rest Hwf Hs) as (l1 & l2 & Hc & _ & Hrun).
  assert (Ht : truthy_str (Some secret) = Some secret) by by destruct secret.
  rewrite Ht in Hrun. simpl in Hrun. rewrite Hrun.
  exists l1, l2.
  destruct (truthy_dict new_attributes) as [na|]; [|by eexists].
  destruct (_encode_attributes na); by eexists.
Qed.

Lemma update_item_new_secret_witness :
  ∃ l1 l2 item',
    Sample.collection = l1 ++ Sample.mail1 :: l2
    ∧ (update_item None (Some (py "correct horse")) None (Some (py "mail"))
                   None AND true Sample.collection).2 = l1 ++ item' :: l2
    ∧ item_path item' = item_path Sample.mail1
    ∧ item_label item' = item_label Sample.mail1
    ∧ item_secret item' = py "correct horse".
Proof.
  apply (update_item_new_secret None (py "correct horse") None
           (Some (py "mail")) None AND true Sample.collection Sample.mail1
           [Sample.mail2]).
  - apply (bool_decide_unpack _). vm_compute. exact I.
  - vm_compute. reflexivity.
  - vm_compute. discriminate.
Defined.

(** C7 as stated fails: a new secret that is given but empty is not
    written.  The first matched item keeps its secret and the call
    returns normally. *)
Lemma update_item_empty_secret_kept :
  (search_items None (Some (py "web")) None AND Sample.collection).1
  = Ok [Sample.web]
  ∧ update_item None (Some []) None (Some (py "web")) None AND true
                Sample.collection
    = (Ok (), Sample.collection)
  ∧ item_secret Sample.web ≠ [].
Proof. vm_compute. repeat split. discriminate. Qed.

(** C3, as the code has it.  When the search returns a first item:
    given a non-empty mapping of attributes to delete (which encodes),
    [delete_item] removes exactly the keys of that mapping from the
    item's attributes, whatever their values and whether or not the item
    has them, stores the rest, and the item stays where it was; given no
    such mapping, it removes the item from the collection, and a search
    for the item's path then returns no item. *)
Theorem delete_item_attributes_or_item attributes label path logic
    delete_attributes c item rest encoded :
  wf_collection c →
  (search_items attributes label path logic c).1 = Ok (item :: rest) →
  delete_attributes ≠ ∅ →
  _encode_attributes delete_attributes = Ok encoded →
  ∃ l1 l2 item',
    c = l1 ++ item :: l2
    ∧ delete_item attributes label path logic (Some delete_attributes) c
      = (Ok (), l1 ++ item' :: l2)
    ∧ item_path item' = item_path item
    ∧ item_label item' = item_label item
    ∧ item_secret item' = item_secret item
    ∧ (∀ k, item_attributes item' !! k
            = match delete_attributes !! k with
              | Some _ => None
              | None => item_attributes item !! k
              end)
    ∧ delete_item attributes label path logic None c = (Ok (), l1 ++ l2)
    ∧ search_items None None (Some (item_path item)) AND (l1 ++ l2)
      = (Ok [], l1 ++ l2).
Proof.
  intros Hwf Hs Hne Henc.
  destruct (delete_item_run attributes label path logic c item rest Hwf Hs)
    as (l1 & l2 & Hc & Hother & _ & Hdel).
  pose proof (Hdel (Some delete_attributes)) as Hrun.
  pose proof (Hdel None) as Hrun'.
  rewrite truthy_dict_nonempty, Henc in Hrun by done. simpl in Hrun, Hrun'.
  eexists l1, l2, _. split; [done|]. split; [exact Hrun|].
  repeat split; try done.
  - intros k. simpl.
    pose proof (_encode_attributes_keys _ _ k Henc) as Hk.
    destruct (delete_attributes !! k) as [v|] eqn:Hd.
    + apply map_lookup_filter_None. right. intros w _ Hn. simpl in Hn.
      apply Hk in Hn. done.
    + destruct (item_attributes item !! k) as [w|] eqn:Hw.
      * apply map_lookup_filter_Some. split; [done|]. by apply Hk.
      * apply map_lookup_filter_None. by left.
  - rewrite search_items_run. simpl.
    unfold _encode_attributes. rewrite dict_comprehension_empty.
    do 2 f_equal.
    clear -Hother. set (l := l1 ++ l2) in *. clearbody l.
    induction Hother as [|y l Hy _ IH]; [done|]. simpl.
    replace (item_test ∅ None (Some (item_path item)) AND y) with false; [done|].
    unfold item_test. simpl.
    rewrite (bool_decide_eq_false_2 (item_path item = item_path y)) by done.
    by rewrite andb_false_r.
Qed.

Lemma delete_item_attributes_or_item_witness :
  let delete_attributes : gmap pystr value := {[ py "k1" := VStr (py "v1") ]} in
  ∃ l1 l2 item',
    Sample.collection = l1 ++ Sample.mail2 :: l2
    ∧ delete_item None None (Some (py "/collection/2")) AND
                  (Some delete_attributes) Sample.collection
      = (Ok (), l1 ++ item' :: l2)
    ∧ item_path item' = item_path Sample.mail2
    ∧ item_label item' = item_label Sample.mail2
    ∧ item_secret item' = item_secret Sample.mail2
    ∧ (∀ k, item_attributes item' !! k
            = match delete_attributes !! k with
              | Some _ => None
              | None => item_attributes Sample.mail2 !! k
              end)
    ∧ delete_item None None (Some (py "/collection/2")) AND None
                  Sample.collection = (Ok (), l1 ++ l2)
    ∧ search_items None None (Some (item_path Sample.mail2)) AND (l1 ++ l2)
      = (Ok [], l1 ++ l2).
Proof.
  intros delete_attributes.
  apply (delete_item_attributes_or_item None None (Some (py "/collection/2"))
           AND delete_attributes Sample.collection Sample.mail2 []
           {[ py "k1" := py "v1" ]}).
  - apply (bool_decide_unpack _). vm_compute. exact I.
  - vm_compute. reflexivity.
  - apply (bool_decide_unpack _). vm_compute. exact I.
  - vm_compute. reflexivity.
Defined.

(** C3 as stated fails: a mapping of attributes to delete that is given
    but empty does not leave the item in place. *)
Lemma delete_item_given_empty_removes_item :
  (search_items None (Some (py "web")) None AND Sample.collection).1
  = Ok [Sample.web]
  ∧ delete_item None (Some (py "web")) None AND (Some ∅) Sample.collection
    = (Ok (), [Sample.mail1; Sample.mail2])
  ∧ ¬ In Sample.web [Sample.mail1; Sample.mail2].
Proof.
  vm_compute. repeat split. intros [H|[H|[]]]; discriminate.
Qed.

(** The two deletions the specification lists as tests. *)
Example delete_item_one_attribute :
  delete_item None None (Some (py "/collection/2")) AND
              (Some {[ py "k1" := VStr (py "v1") ]}) Sample.collection
  = (Ok (), [Sample.mail1;
             with_attributes Sample.mail2 {[ py "k2" := py "v2" ]};
             Sample.web]).
Proof. vm_compute. reflexivity. Qed.

Example delete_item_whole :
  delete_item None None (Some (py "/collection/2")) AND None Sample.collection
  = (Ok (), [Sample.mail1; Sample.web]).
Proof. vm_compute. reflexivity. Qed.

(** C10. A mapping of attributes to delete that is given but empty is
    taken as not given: when the search returns a first item,
    [delete_item] removes that item from the collection, and no item
    with its path is left. *)
Theorem delete_item_empty_mapping attributes label path logic c item rest :
  wf_collection c →
  (search_items attributes label path logic c).1 = Ok (item :: rest) →
  ∃ l1 l2,
    c = l1 ++ item :: l2
    ∧ delete_item attributes label path logic (Some ∅) c = (Ok (), l1 ++ l2)
    ∧ delete_item attributes label path logic (Some ∅) c
      = delete_item attributes label path logic None c
    ∧ Forall (λ x, item_path x ≠ item_path item) (l1 ++ l2).
Proof.
  intros Hwf Hs.
  destruct (delete_item_run attributes label path logic c item rest Hwf Hs)
    as (l1 & l2 & Hc & Hother & _ & Hdel).
  exists l1, l2. by rewrite (Hdel (Some ∅)), (Hdel None).
Qed.

Lemma delete_item_empty_mapping_witness :
  ∃ l1 l2,
    Sample.collection = l1 ++ Sample.mail1 :: l2
    ∧ delete_item None (Some (py "mail")) None AND (Some ∅) Sample.collection
      = (Ok (), l1 ++ l2)
    ∧ delete_item None (Some (py "mail")) None AND (Some ∅) Sample.collection
      = delete_item None (Some (py "mail")) None AND None Sample.collection
    ∧ Forall (λ x, item_path x ≠ item_path Sample.mail1) (l1 ++ l2).
Proof.
  apply (delete_item_empty_mapping None (Some (py "mail")) None AND
           Sample.collection Sample.mail1 [Sample.mail2]).
  - apply (bool_decide_unpack _). vm_compute. exact I.
  - vm_compute. reflexivity.
Defined.

(** C4. [update_item] and [delete_item] raise [ValueError("Item not
    found")] exactly when the search returns no item.  When it returns
    some, they act on the first one in enumeration order: the collection
    splits into the items before it, none of which the search accepts,
    the item, and the items after it; the items before and after are
    left as they were, and the item is changed in place or, by
    [delete_item], changed in place or removed. *)
Theorem mutators_first_match_only attributes new_secret new_attributes label
    path logic merge delete_attributes c :
  wf_collection c →
  ((update_item attributes new_secret new_attributes label path logic merge c).1
   = Raise (ValueError Item_not_found)
   ↔ (search_items attributes label path logic c).1 = Ok [])
  ∧ ((delete_item attributes label path logic delete_attributes c).1
     = Raise (ValueError Item_not_found)
     ↔ (search_items attributes label path logic c).1 = Ok [])
  ∧ ∀ item rest,
      (search_items attributes label path logic c).1 = Ok (item :: rest) →
      ∃ l1 l2,
        c = l1 ++ item :: l2
        ∧ (search_items attributes label path logic l1).1 = Ok []
        ∧ (∃ item',
             (update_item attributes new_secret new_attributes label path
                          logic merge c).2 = l1 ++ item' :: l2
             ∧ item_path item' = item_path item)
        ∧ ((delete_item attributes label path logic delete_attributes c).2
           = l1 ++ l2
           ∨ ∃ item',
               (delete_item attributes label path logic delete_attributes c).2
               = l1 ++ item' :: l2
               ∧ item_path item' = item_path item).
Proof.
  intros Hwf.
  pose proof (mutators_without_match attributes new_secret new_attributes
                label path logic merge delete_attributes c) as Hnone.
  destruct ((search_items attributes label path logic c).1)
    as [[|item rest]|e] eqn:Hs.
  - destruct Hnone as [-> ->]. by repeat split.
  - clear Hnone.
    destruct (mutators_run _ _ _ _ _ _ _ Hwf Hs)
      as (l1 & l2 & Hc & _ & Hl1 & Hu & Hd).
    rewrite (Hu new_secret new_attributes merge), (Hd delete_attributes).
    assert (Hupd : ∃ item',
      (let item1 := from_option (with_secret item) item (truthy_str new_secret) in
       match truthy_dict new_attributes with
       | None => (Ok (), l1 ++ item1 :: l2)
       | Some na =>
         match _encode_attributes na with
         | Raise e => (Raise e, l1 ++ item1 :: l2)
         | Ok encoded =>
           (Ok (), l1 ++ with_attributes item1
                           (if merge then encoded ∪ item_attributes item
                            else encoded) :: l2)
         end
       end).2 = l1 ++ item' :: l2 ∧ item_path item' = item_path item).
    { simpl. destruct (truthy_dict new_attributes) as [na|];
        [destruct (_encode_attributes na)|]; simpl;
        eexists; (split; [reflexivity|]); by destruct (truthy_str new_secret). }
    split; [|split].
    + split; [|done]. simpl.
      destruct (truthy_dict new_attributes) as [na|]; [|done].
      destruct (_encode_attributes na) as [|e] eqn:He; [done|].
      apply _encode_attributes_raises in He as ->. done.
    + split; [|done].
      destruct (truthy_dict delete_attributes) as [da|]; [|done].
      destruct (_encode_attributes da) as [|e] eqn:He; [done|].
      apply _encode_attributes_raises in He as ->. done.
    + intros item0 rest0 [= <- <-]. exists l1, l2.
      split; [done|]. split; [done|]. split; [exact Hupd|].
      destruct (truthy_dict delete_attributes) as [da|]; [|by left].
      right. destruct (_encode_attributes da); by eexists.
  - destruct Hnone as [-> ->]. simpl.
    apply search_items_raises in Hs as ->. by repeat split.
Qed.

Lemma mutators_first_match_only_witness :
  let c := Sample.collection in
  let q := Some (py "mail") in
  let new_attributes : option (gmap pystr value) :=
    Some {[ py "k2" := Sample.v2_bytes ]} in
  ((update_item None None new_attributes q None AND true c).1
   = Raise (ValueError Item_not_found)
   ↔ (search_items None q None AND c).1 = Ok [])
  ∧ ((delete_item None q None AND None c).1
     = Raise (ValueError Item_not_found)
     ↔ (search_items None q None AND c).1 = Ok [])
  ∧ ∀ item rest,
      (search_items None q None AND c).1 = Ok (item :: rest) →
      ∃ l1 l2,
        c = l1 ++ item :: l2
        ∧ (search_items None q None AND l1).1 = Ok []
        ∧ (∃ item',
             (update_item None None new_attributes q None AND true c).2
             = l1 ++ item' :: l2
             ∧ item_path item' = item_path item)
        ∧ ((delete_item None q None AND None c).2 = l1 ++ l2
           ∨ ∃ item',
               (delete_item None q None AND None c).2 = l1 ++ item' :: l2
               ∧ item_path item' = item_path item).
Proof.
  intros c q new_attributes.
  apply (mutators_first_match_only None None new_attributes q None AND true
           None c).
  apply (bool_decide_unpack _). vm_compute. exact I.
Defined.

(** With no item labelled so, both raise and the collection is as it was. *)
Example mutators_not_found :
  update_item None (Some (py "x")) None (Some (py "ftp")) None AND true
              Sample.collection
  = (Raise (ValueError Item_not_found), Sample.collection)
  ∧ delete_item None (Some (py "ftp")) None AND None Sample.collection
    = (Raise (ValueError Item_not_found), Sample.collection).
Proof. vm_compute. done. Qed.

(** ** Attribute codec *)

(** A comprehension returns the dictionary that has, key by key, what
    its body returns. *)
Lemma dict_comprehension_intro {A B} (f : A → res B) (d : gmap pystr A) d' :
  (∀ k, match d !! k, d' !! k with
        | Some v, Some w => f v = Ok w
        | None, None => True
        | _, _ => False
        end) →
  dict_comprehension f d = Ok d'.
Proof.
  intros Hall.
  destruct (dict_comprehension_total f d) as [d'' Hd''].
  { intros k v Hk. specialize (Hall k). rewrite Hk in Hall.
    destruct (d' !! k) as [w|]; [eauto|done]. }
  rewrite Hd''. f_equal. apply map_eq. intros k.
  pose proof (dict_comprehension_Ok f d d'' k Hd'') as Hk.
  specialize (Hall k). destruct (d !! k) as [v|].
  - destruct Hk as (w & Hw & ->). destruct (d' !! k); [congruence|done].
  - rewrite Hk. by destruct (d' !! k).
Qed.

(** C5. For a mapping whose values are all byte strings that are valid
    UTF-8, encoding the attributes for the wire returns, and decoding
    what it returns gives the mapping back. *)
Theorem decode_encode_attributes (A : gmap pystr value) :
  map_Forall (λ _ v, valid_utf8 v = true) A →
  ∃ W, _encode_attributes A = Ok W ∧ _decode_attributes (wire W) = Ok A.
Proof.
  intros Hvalid.
  assert (Hbytes : ∀ k v, A !! k = Some v →
            ∃ b str, v = VBytes b ∧ Utf8.decode b = Some str).
  { intros k v Hk. specialize (Hvalid k v Hk). destruct v as [str|b]; [done|].
    simpl in Hvalid. apply bool_decide_eq_true in Hvalid as [str Hs]. eauto. }
  destruct (dict_comprehension_total encode_value A) as [W HW].
  { intros k v Hk. destruct (Hbytes k v Hk) as (b & str & -> & Hs).
    exists str. simpl. unfold bytes_decode. by rewrite Hs. }
  exists W. split; [exact HW|].
  apply dict_comprehension_intro. intros k.
  pose proof (dict_comprehension_Ok encode_value A W k HW) as Hk.
  unfold wire. rewrite lookup_fmap.
  destruct (A !! k) as [v|] eqn:HA.
  - destruct Hk as (str & Hstr & ->). simpl.
    destruct (Hbytes k v HA) as (b & str' & -> & Hs).
    simpl in Hstr. unfold bytes_decode in Hstr. rewrite Hs in Hstr.
    injection Hstr as ->.
    unfold str_encode. by rewrite (Utf8Facts.encode_decode b str Hs).
  - by rewrite Hk.
Qed.

Lemma decode_encode_attributes_witness :
  let A : gmap pystr value :=
    {[ py "k2" := Sample.v2_bytes; py "name" := Sample.e_acute ]} in
  ∃ W, _encode_attributes A = Ok W ∧ _decode_attributes (wire W) = Ok A.
Proof.
  intros A. apply (decode_encode_attributes A).
  apply (bool_decide_unpack _). vm_compute. exact I.
Defined.

(** The two octets of ["é"] travel as one code point. *)
Example _encode_attributes_e_acute :
  _encode_attributes {[ py "name" := Sample.e_acute ]}
  = Ok {[ py "name" := [233] ]}.
Proof. vm_compute. reflexivity. Qed.

(** Octets that are not UTF-8 do not encode, and a text value comes back
    from the wire as bytes. *)
Example _encode_attributes_invalid :
  _encode_attributes {[ py "k" := VBytes [xff] ]} = Raise UnicodeDecodeError.
Proof. vm_compute. reflexivity. Qed.

Example decode_encode_text_value :
  _encode_attributes {[ py "k" := VStr (py "v") ]} = Ok {[ py "k" := py "v" ]}
  ∧ _decode_attributes (wire {[ py "k" := py "v" ]})
    = Ok {[ py "k" := VBytes [x76] ]}.
Proof. vm_compute. done. Qed.

(** ** Collection gateway *)

(** C9. On an unlocked collection [_unlock] does nothing: no request is
    sent to the service and nothing is printed.  On a locked one it sends
    exactly one unlock request, reports a dismissed prompt without asking
    again, and then looks at the lock state once more: it raises
    [ValueError] ("... is still locked. Try again.") exactly when the
    collection is locked after the request. *)
Theorem _unlock_spec collection_name p g :
  if locked g then
    _unlock collection_name p g
    = (if still_locked p
       then Raise (ValueError (msg_still_locked collection_name))
       else Ok (),
       mkGateway (still_locked p) (S (unlock_requests g))
                 (stderr g ++ msg_locked :: msg_continue
                    :: (if dismissed p then [msg_dismissed] else [])))
    ∧ ((_unlock collection_name p g).1
       = Raise (ValueError (msg_still_locked collection_name))
       ↔ locked (_unlock collection_name p g).2 = true)
  else _unlock collection_name p g = (Ok (), g).
Proof.
  destruct g as [l n err], p as [d sl]. simpl.
  destruct l; [|done].
  assert (Hrun :
    _unlock collection_name (mkPrompt d sl) (mkGateway true n err)
    = (if sl then Raise (ValueError (msg_still_locked collection_name))
       else Ok (),
       mkGateway sl (S n)
                 (err ++ msg_locked :: msg_continue
                    :: (if d then [msg_dismissed] else [])))).
  { unfold _unlock, bind, _locked, print_stderr, collection_unlock, raise, ret.
    simpl. destruct d, sl; simpl; by rewrite <- !app_assoc. }
  rewrite Hrun. split; [done|]. simpl. by destruct sl.
Qed.

(** Granted, dismissed, and dismissed on a collection that is open. *)
Example _unlock_granted :
  _unlock (py "login") (mkPrompt false false) (mkGateway true 0 [])
  = (Ok (), mkGateway false 1 [msg_locked; msg_continue]).
Proof. vm_compute. reflexivity. Qed.

Example _unlock_dismissed :
  _unlock (py "login") (mkPrompt true true) (mkGateway true 0 [])
  = (Raise (ValueError (py "Collection 'login' is still locked. Try again.")),
     mkGateway true 1 [msg_locked; msg_continue; msg_dismissed]).
Proof. vm_compute. reflexivity. Qed.

Example _unlock_unlocked :
  _unlock (py "login") (mkPrompt true true) (mkGateway false 0 [])
  = (Ok (), mkGateway false 0 []).
Proof. vm_compute. reflexivity. Qed.

(** ** Reading *)

(** Text encodes: every sequence of Unicode scalar values has a UTF-8
    encoding. *)
Lemma encode_cp_scalar cp : scalar cp = true → is_Some (Utf8.encode_cp cp).
Proof.
  unfold scalar, Utf8.encode_cp.
  rewrite andb_true_iff, negb_true_iff. intros [-> ->].
  destruct (cp <? 0x80), (cp <? 0x800), (cp <? 0x10000); eauto.
Qed.

Lemma encode_scalar str : forallb scalar str = true → is_Some (Utf8.encode str).
Proof.
  induction str as [|cp str IH]; simpl; [eauto|].
  rewrite andb_true_iff. intros [Hcp Hstr].
  destruct (encode_cp_scalar cp Hcp) as [b ->].
  destruct (IH Hstr) as [bs ->]. eauto.
Qed.

(** [read_item]'s entry for an item whose attributes are text is its
    decoded record. *)
Lemma read_entry_decoded item :
  text_attributes item → ∃ e, read_entry item = Ok e ∧ decoded_entry item e.
Proof.
  intros Htext. unfold read_entry, _decode_attributes, get_attributes.
  destruct (dict_comprehension_total decode_value (wire (item_attributes item)))
    as [d Hd].
  { intros k v. unfold wire. rewrite lookup_fmap.
    destruct (item_attributes item !! k) as [str|] eqn:Hk; [|done].
    intros [= <-]. simpl. unfold str_encode.
    destruct (encode_scalar str (Htext k str Hk)) as [b ->]. simpl. eauto. }
  rewrite Hd. simpl. eexists. split; [done|].
  repeat split. simpl. intros k.
  pose proof (dict_comprehension_Ok decode_value _ d k Hd) as Hk.
  unfold wire in Hk. rewrite lookup_fmap in Hk.
  destruct (item_attributes item !! k) as [str|]; simpl in *; [|done].
  destruct Hk as (w & Hw & ->). unfold str_encode in Hw.
  destruct (Utf8.encode str); simpl in *; congruence.
Qed.

Lemma list_comprehension_Forall2 {A B} (f : A → res B) (R : A → B → Prop) l :
  Forall (λ x, ∃ y, f x = Ok y ∧ R x y) l →
  ∃ ys, list_comprehension f l = Ok ys ∧ Forall2 R l ys.
Proof.
  induction 1 as [|x l (y & Hy & HR) _ (ys & Hys & HRs)]; simpl.
  - exists []. by split.
  - exists (y :: ys). rewrite Hy, Hys. simpl. split; [done|]. by constructor.
Qed.

(** C8. On a collection whose attribute values are text, when the search
    returns: [read_item] reads the matched items into their decoded
    records, in enumeration order, and leaves the collection as it was.
    Without [multiple] it returns the first record alone, and [None]
    when no item matched; with [multiple] it returns the list of all the
    records, and [None] as well when no item matched. *)
Theorem read_item_entries attributes label path logic c matched :
  Forall text_attributes c →
  (search_items attributes label path logic c).1 = Ok matched →
  ∃ entries,
    Forall2 decoded_entry matched entries
    ∧ read_item attributes label path logic false c
      = (Ok (Single <$> head entries), c)
    ∧ read_item attributes label path logic true c
      = (Ok (match entries with
             | [] => None
             | _ :: _ => Some (Multiple entries)
             end), c).
Proof.
  intros Htext Hs.
  assert (Hsearch : search_items attributes label path logic c = (Ok matched, c)).
  { rewrite search_items_run in Hs |- *. simpl in Hs. by rewrite Hs. }
  assert (Hsub : Forall text_attributes matched).
  { rewrite search_items_run in Hs. simpl in Hs.
    destruct (_encode_attributes (default ∅ attributes)); [|done].
    injection Hs as <-. rewrite Forall_forall in Htext |- *.
    intros x Hx. apply Htext, list_elem_of_In.
    apply list_elem_of_In, filter_In in Hx. tauto. }
  destruct (list_comprehension_Forall2 read_entry decoded_entry matched)
    as (entries & Hentries & Hdec).
  { eapply Forall_impl; [exact Hsub|]. intros x. apply read_entry_decoded. }
  exists entries. split; [done|].
  unfold read_item, bind. rewrite Hsearch.
  destruct matched as [|item rest].
  - simpl in Hentries. injection Hentries as <-. done.
  - unfold lift, ret. rewrite Hentries.
    simpl in Hentries.
    destruct (read_entry item) as [e|]; [|done]. simpl in Hentries.
    destruct (list_comprehension read_entry rest) as [es|]; [|done].
    simpl in Hentries. injection Hentries as <-. done.
Qed.

Lemma read_item_entries_witness :
  ∃ entries,
    Forall2 decoded_entry [Sample.mail1; Sample.mail2] entries
    ∧ read_item None (Some (py "mail")) None AND false Sample.collection
      = (Ok (Single <$> head entries), Sample.collection)
    ∧ read_item None (Some (py "mail")) None AND true Sample.collection
      = (Ok (match entries with
             | [] => None
             | _ :: _ => Some (Multiple entries)
             end), Sample.collection).
Proof.
  apply (read_item_entries None (Some (py "mail")) None AND Sample.collection
           [Sample.mail1; Sample.mail2]).
  - apply (bool_decide_unpack _). vm_compute. exact I.
  - vm_compute. reflexivity.
Defined.

(** One match of two read alone, both read together, and none. *)
Example read_item_first :
  (read_item None (Some (py "mail")) None AND false Sample.collection).1
  = Ok (Some (Single (mkEntry (py "mail") {[ py "k1" := VBytes [x76; x31] ]}
                              (py "hunter2")))).
Proof. vm_compute. reflexivity. Qed.

Example read_item_all :
  (read_item None (Some (py "mail")) None AND true Sample.collection).1
  = Ok (Some (Multiple
      [mkEntry (py "mail") {[ py "k1" := VBytes [x76; x31] ]} (py "hunter2");
       mkEntry (py "mail")
               {[ py "k1" := VBytes [x76; x31]; py "k2" := VBytes [x76; x32] ]}
               (py "swordfish")])).
Proof. vm_compute. reflexivity. Qed.

Example read_item_none :
  (read_item None (Some (py "ftp")) None AND false Sample.collection).1 = Ok None
  ∧ (read_item None (Some (py "ftp")) None AND true Sample.collection).1 = Ok None.
Proof. vm_compute. done. Qed.

(** ** The codec, the other way round *)

Module Utf8Inverse.
Import Utf8.

Lemma to_N_byte_of_N n : n < 256 → Byte.to_N (byte_of_N n) = n.
Proof.
  intros Hn. unfold byte_of_N. destruct (Byte.of_N n) as [b|] eqn:Hb.
  - by apply Byte.to_of_N.
  - apply Byte.of_N_None_iff in Hb. lia.
Qed.

Local Ltac divmod a b :=
  let q := fresh "q" in
  let r := fresh "r" in
  pose proof (N.div_mod a b ltac:(lia));
  pose proof (N.mod_lt a b ltac:(lia));
  set (q := a / b) in *; set (r := a mod b) in *; clearbody q r.

(** Evaluate the comparisons of the goal with [lia]. *)
Local Ltac tests :=
  repeat match goal with
         | |- context [?a <? ?b] =>
           first [ replace (a <? b) with true by (symmetry; apply N.ltb_lt; lia)
                 | replace (a <? b) with false by (symmetry; apply N.ltb_ge; lia) ]
         | |- context [?a <=? ?b] =>
           first [ replace (a <=? b) with true by (symmetry; apply N.leb_le; lia)
                 | replace (a <=? b) with false by (symmetry; apply N.leb_gt; lia) ]
         end.

(** The decoder reads an encoded code point back and goes on after it. *)
Lemma decode_encode_cp cp bs rest :
  encode_cp cp = Some bs →
  decode (bs ++ rest)
  = match decode rest with
    | Some s => Some (cp :: s)
    | None => None
    end.
Proof.
  unfold encode_cp.
  destruct (cp <? 0x80) eqn:E1.
  { intros [= <-]. apply N.ltb_lt in E1. cbn [app decode].
    rewrite to_N_byte_of_N by lia. by tests. }
  apply N.ltb_ge in E1.
  destruct (cp <? 0x800) eqn:E2.
  { intros [= <-]. apply N.ltb_lt in E2. cbn [app decode].
    divmod cp 64.
    rewrite !to_N_byte_of_N by lia.
    unfold is_cont. tests. simpl.
    replace ((192 + q - 192) * 64 + (128 + r - 128)) with cp by lia.
    by tests. }
  apply N.ltb_ge in E2.
  destruct (cp <? 0x10000) eqn:E3.
  { destruct (is_surrogate cp) eqn:Es; [done|].
    intros [= <-]. apply N.ltb_lt in E3. cbn [app decode].
    replace (cp / 4096) with (cp / 64 / 64) by (by rewrite N.Div0.div_div).
    divmod cp 64. divmod q 64.
    rewrite !to_N_byte_of_N by lia.
    unfold is_cont. tests. simpl.
    replace ((224 + q0 - 224) * 4096 + (128 + r0 - 128) * 64 + (128 + r - 128))
      with cp by lia.
    rewrite Es. by tests. }
  apply N.ltb_ge in E3.
  destruct (cp <=? 0x10FFFF) eqn:E4; [|done].
  intros [= <-]. apply N.leb_le in E4. cbn [app decode].
  replace (cp / 262144) with (cp / 64 / 64 / 64) by (by rewrite !N.Div0.div_div).
  replace (cp / 4096) with (cp / 64 / 64) by (by rewrite N.Div0.div_div).
  divmod cp 64. divmod q 64. divmod q0 64.
  rewrite !to_N_byte_of_N by lia.
  unfold is_cont. tests. simpl.
  replace ((240 + q1 - 240) * 262144 + (128 + r1 - 128) * 4096
           + (128 + r0 - 128) * 64 + (128 + r - 128)) with cp by lia.
  by tests.
Qed.

(** Encoding then decoding gives the text back. *)
Lemma decode_encode str bs : encode str = Some bs → decode bs = Some str.
Proof.
  revert bs. induction str as [|cp str IH]; intros bs; simpl.
  { by intros [= <-]. }
  destruct (encode_cp cp) as [b|] eqn:Hcp; [|done].
  destruct (encode str) as [bs'|]; [|done].
  intros [= <-]. rewrite (decode_encode_cp cp b bs' Hcp).
  by rewrite (IH bs').
Qed.

End Utf8Inverse.

(** ** Attribute codec: errors and the JSON boundary *)

(** X1. [_encode_attributes] returns exactly when every byte-string value
    is valid UTF-8; text values never make it raise. *)
Theorem _encode_attributes_returns (attributes : gmap pystr value) :
  (∃ encoded, _encode_attributes attributes = Ok encoded)
  ↔ ∀ k b, attributes !! k = Some (VBytes b) → is_Some (Utf8.decode b).
Proof.
  split.
  - intros [encoded Henc] k b Hk.
    pose proof (dict_comprehension_Ok encode_value _ _ k Henc) as H.
    rewrite Hk in H. destruct H as (w & Hw & _). simpl in Hw.
    unfold bytes_decode in Hw. destruct (Utf8.decode b); [eauto|done].
  - intros Hall. apply dict_comprehension_total. intros k [str|b] Hk; simpl.
    + eauto.
    + unfold bytes_decode. destruct (Hall k b Hk) as [str ->]. eauto.
Qed.

(** Text encodes exactly when its code points are scalar values. *)
Lemma encode_cp_not_scalar cp : scalar cp = false → Utf8.encode_cp cp = None.
Proof.
  unfold scalar, Utf8.encode_cp, Utf8.is_surrogate.
  rewrite andb_false_iff, negb_false_iff, andb_true_iff, !N.leb_le, N.leb_gt.
  intros H.
  destruct (cp <? 0x80) eqn:E1; [apply N.ltb_lt in E1; lia|].
  destruct (cp <? 0x800) eqn:E2; [apply N.ltb_lt in E2; lia|].
  destruct (cp <? 0x10000) eqn:E3.
  - apply N.ltb_lt in E3.
    replace ((0xD800 <=? cp) && (cp <=? 0xDFFF)) with true; [done|].
    symmetry. apply andb_true_iff. rewrite !N.leb_le. lia.
  - apply N.ltb_ge in E3.
    replace (cp <=? 0x10FFFF) with false; [done|].
    symmetry. apply N.leb_gt. lia.
Qed.

Lemma encode_is_Some str : is_Some (Utf8.encode str) ↔ forallb scalar str = true.
Proof.
  split; [|apply encode_scalar].
  induction str as [|cp str IH]; simpl; [done|].
  destruct (scalar cp) eqn:Hcp.
  - destruct (Utf8.encode_cp cp); [|by intros [? ?]].
    destruct (Utf8.encode str); [|by intros [? ?]]. intros _.
    apply IH. eauto.
  - rewrite (encode_cp_not_scalar cp Hcp). by intros [? ?].
Qed.

(** X2. [_decode_attributes], applied to what the service hands out,
    returns exactly when every value is a sequence of Unicode scalar
    values; it raises [UnicodeEncodeError] otherwise (a lone surrogate,
    say). *)
Theorem _decode_attributes_returns (attributes : gmap pystr pystr) :
  match _decode_attributes (wire attributes) with
  | Ok _ => map_Forall (λ _ s, forallb scalar s = true) attributes
  | Raise e =>
    e = UnicodeEncodeError
    ∧ ∃ k s, attributes !! k = Some s ∧ forallb scalar s = false
  end.
Proof.
  pose proof (dict_comprehension_spec decode_value (wire attributes)) as Hs.
  unfold _decode_attributes.
  destruct (dict_comprehension decode_value (wire attributes)) as [d|e].
  - intros k str Hk. specialize (Hs k). unfold wire in Hs.
    rewrite lookup_fmap, Hk in Hs. simpl in Hs.
    destruct Hs as (w & Hw & _). unfold str_encode in Hw.
    apply encode_is_Some. destruct (Utf8.encode str); [eauto|done].
  - destruct Hs as (k & v & Hk & Hv). unfold wire in Hk.
    rewrite lookup_fmap in Hk.
    destruct (attributes !! k) as [str|] eqn:Hstr; [|done].
    injection Hk as <-. simpl in Hv. unfold str_encode in Hv.
    destruct (Utf8.encode str) as [b|] eqn:Hb; [done|].
    injection Hv as <-. split; [done|]. exists k, str. split; [done|].
    destruct (forallb scalar str) eqn:Hsc; [|done].
    apply encode_is_Some in Hsc as [b Hb']. congruence.
Qed.

(** [decode_bytes] always returns, and what it returns has, key by key,
    the hooked value. *)
Lemma decode_bytes_fold (dct m : gmap pystr value) :
  m ⊆ dct →
  ∃ dct', map_fold decode_bytes_step (Ok dct) m = Ok dct'
    ∧ ∀ k, dct' !! k = match m !! k with
                       | Some v => Some (hooked v)
                       | None => dct !! k
                       end.
Proof.
  apply (map_fold_weak_ind (λ r m, m ⊆ dct →
    ∃ dct', r = Ok dct'
      ∧ ∀ k, dct' !! k = match m !! k with
                         | Some v => Some (hooked v)
                         | None => dct !! k
                         end)).
  { intros _. exists dct. split; [done|]. intros k. by rewrite lookup_empty. }
  clear m. intros i x m r Hi IH Hsub.
  assert (Hm : m ⊆ dct).
  { etrans; [|exact Hsub]. by apply insert_subseteq. }
  assert (Hx : dct !! i = Some x).
  { eapply lookup_weaken; [|exact Hsub]. by rewrite lookup_insert_eq. }
  destruct (IH Hm) as (dct' & -> & Hk). unfold decode_bytes_step. simpl.
  assert (Hkeep : ∀ k, i ≠ k →
            dct' !! k = match <[i:=x]> m !! k with
                        | Some v => Some (hooked v)
                        | None => dct !! k
                        end).
  { intros k Hne. rewrite lookup_insert_ne by done. apply Hk. }
  destruct x as [str|b]; simpl.
  - unfold str_encode. destruct (Utf8.encode str) as [b|] eqn:Hb; simpl.
    + eexists. split; [done|]. intros k.
      destruct (decide (i = k)) as [->|Hne].
      * rewrite !lookup_insert_eq. simpl. by rewrite Hb.
      * rewrite lookup_insert_ne by done. by apply Hkeep.
    + eexists. split; [done|]. intros k.
      destruct (decide (i = k)) as [->|Hne]; [|by apply Hkeep].
      rewrite lookup_insert_eq, Hk, Hi, Hx. simpl. by rewrite Hb.
  - eexists. split; [done|]. intros k.
    destruct (decide (i = k)) as [->|Hne]; [|by apply Hkeep].
    by rewrite lookup_insert_eq, Hk, Hi, Hx.
Qed.

Lemma decode_bytes_lookup (dct : gmap pystr value) :
  ∃ dct', decode_bytes dct = Ok dct' ∧ ∀ k, dct' !! k = hooked <$> dct !! k.
Proof.
  destruct (decode_bytes_fold dct dct (reflexivity dct)) as (dct' & H & Hk).
  exists dct'. split; [done|]. intros k. rewrite Hk. by destruct (dct !! k).
Qed.

Lemma hooked_encodes str : encode_value (hooked (VStr str)) = Ok str.
Proof.
  simpl. destruct (Utf8.encode str) as [b|] eqn:Hb; simpl; [|done].
  unfold bytes_decode. by rewrite (Utf8Inverse.decode_encode str b Hb).
Qed.

(** X3. An attribute mapping that arrives as JSON strings reaches the
    service as those strings: the JSON hook always returns, and encoding
    what it returns gives the strings back, also a string that could not
    be turned into bytes and was left as it was. *)
Theorem decode_bytes_then_encode (strings : gmap pystr pystr) :
  ∃ dct, decode_bytes (wire strings) = Ok dct
    ∧ _encode_attributes dct = Ok strings.
Proof.
  destruct (decode_bytes_lookup (wire strings)) as (dct & Hd & Hk).
  exists dct. split; [done|].
  apply dict_comprehension_intro. intros k. rewrite Hk. unfold wire.
  rewrite lookup_fmap. destruct (strings !! k) as [str|]; simpl; [|done].
  apply hooked_encodes.
Qed.

(** X4. The JSON hook never raises, keeps the keys, leaves byte-string
    values as they are, and applying it a second time changes nothing. *)
Theorem decode_bytes_idempotent (dct : gmap pystr value) :
  ∃ dct', decode_bytes dct = Ok dct'
    ∧ decode_bytes dct' = Ok dct'
    ∧ (∀ k, dct' !! k = None ↔ dct !! k = None)
    ∧ ∀ k b, dct !! k = Some (VBytes b) → dct' !! k = Some (VBytes b).
Proof.
  destruct (decode_bytes_lookup dct) as (dct' & Hd & Hk).
  exists dct'. split; [done|]. split; [|split].
  - destruct (decode_bytes_lookup dct') as (dct'' & Hd' & Hk').
    rewrite Hd'. f_equal. apply map_eq. intros k.
    rewrite Hk', Hk. destruct (dct !! k) as [[str|b]|]; simpl; try done.
    destruct (Utf8.encode str) eqn:Hb; simpl; [done|]. by rewrite Hb.
  - intros k. rewrite Hk. by destruct (dct !! k).
  - intros k b Hb. by rewrite Hk, Hb.
Qed.

(** X5. What [read_item] and [list_items] decode, [encode_bytes] turns
    back into the stored text: a decoded attribute value serializes to
    the value the service holds under that key. *)
Theorem encode_bytes_decoded (stored : gmap pystr pystr) decoded k v :
  _decode_attributes (wire stored) = Ok decoded →
  decoded !! k = Some v →
  ∃ str, stored !! k = Some str ∧ encode_bytes v = Text str.
Proof.
  intros Hdec Hv.
  pose proof (dict_comprehension_Ok decode_value _ _ k Hdec) as Hk.
  unfold wire in Hk. rewrite lookup_fmap in Hk.
  destruct (stored !! k) as [str|]; simpl in Hk; [|congruence].
  destruct Hk as (w & Hw & Hw'). exists str. split; [done|].
  rewrite Hv in Hw'. injection Hw' as <-.
  unfold str_encode in Hw. destruct (Utf8.encode str) as [b|] eqn:Hb; [|done].
  injection Hw as <-. simpl. unfold bytes_decode.
  by rewrite (Utf8Inverse.decode_encode str b Hb).
Qed.

Lemma encode_bytes_decoded_witness :
  ∃ str, ({[ py "name" := [233] ]} : gmap pystr pystr) !! py "name" = Some str
    ∧ encode_bytes Sample.e_acute = Text str.
Proof.
  apply (encode_bytes_decoded {[ py "name" := [233] ]}
           {[ py "name" := Sample.e_acute ]} (py "name") Sample.e_acute).
  - vm_compute. reflexivity.
  - vm_compute. reflexivity.
Defined.

(** Handed text, or bytes that are not UTF-8, [encode_bytes] raises. *)
Example encode_bytes_raises :
  encode_bytes (VStr (py "v"))
  = RaisesTypeError (py "Object of type str is not JSON serializable")
  ∧ encode_bytes (VBytes [xff]) = Raises UnicodeDecodeError.
Proof. vm_compute. done. Qed.

(** ** Item matcher: edges *)

(** X6. Under OR a filter that is left out holds for every item: when the
    label or the path is not given, or no attribute is, [search_items]
    returns the whole collection whatever the other filters say. *)
Theorem search_items_any_unset attributes label path c encoded :
  _encode_attributes (default ∅ attributes) = Ok encoded →
  label = None ∨ path = None ∨ encoded = ∅ →
  search_items attributes label path OR c = (Ok c, c).
Proof.
  intros Henc Hunset. rewrite search_items_run, Henc. do 2 f_equal.
  induction c as [|item c IH]; [done|]. simpl.
  replace (item_test encoded label path OR item) with true; [by f_equal|].
  symmetry. apply (item_test_matches encoded label path ANY). simpl.
  destruct Hunset as [-> | [-> | ->]].
  - right. by left.
  - right. by right.
  - left. intros k v. by rewrite lookup_empty.
Qed.

Lemma search_items_any_unset_witness :
  search_items (Some {[ py "k2" := Sample.v2_bytes ]}) (Some (py "web")) None OR
               Sample.collection
  = (Ok Sample.collection, Sample.collection).
Proof.
  apply (search_items_any_unset (Some {[ py "k2" := Sample.v2_bytes ]})
           (Some (py "web")) None Sample.collection
           {[ py "k2" := Sample.v2_text ]}).
  - vm_compute. reflexivity.
  - right. left. reflexivity.
Defined.

(** X7. A combinator that is neither ['AND'] nor ['OR'] is not refused:
    the search returns no item, so [read_item] returns [None] and
    [update_item] and [delete_item] raise "Item not found", and the
    collection is left as it was. *)
Theorem search_items_unknown_logic attributes label path logic c encoded
    new_secret new_attributes merge delete_attributes multiple :
  logic ≠ AND → logic ≠ OR →
  _encode_attributes (default ∅ attributes) = Ok encoded →
  search_items attributes label path logic c = (Ok [], c)
  ∧ read_item attributes label path logic multiple c = (Ok None, c)
  ∧ update_item attributes new_secret new_attributes label path logic merge c
    = (Raise (ValueError Item_not_found), c)
  ∧ delete_item attributes label path logic delete_attributes c
    = (Raise (ValueError Item_not_found), c).
Proof.
  intros Hand Hor Henc.
  assert (Hs : search_items attributes label path logic c = (Ok [], c)).
  { rewrite search_items_run, Henc. do 2 f_equal.
    induction c as [|item c IH]; [done|]. simpl.
    replace (item_test encoded label path logic item) with false; [done|].
    unfold item_test.
    by rewrite (bool_decide_eq_false_2 _ Hand), (bool_decide_eq_false_2 _ Hor). }
  split; [done|].
  pose proof (mutators_without_match attributes new_secret new_attributes
                label path logic merge delete_attributes c) as Hm.
  rewrite Hs in Hm. simpl in Hm. destruct Hm as [-> ->].
  split; [|done]. unfold read_item, bind. by rewrite Hs.
Qed.

Lemma search_items_unknown_logic_witness :
  search_items None (Some (py "mail")) None (py "and") Sample.collection
  = (Ok [], Sample.collection)
  ∧ read_item None (Some (py "mail")) None (py "and") true Sample.collection
    = (Ok None, Sample.collection)
  ∧ update_item None (Some (py "x")) None (Some (py "mail")) None (py "and")
                true Sample.collection
    = (Raise (ValueError Item_not_found), Sample.collection)
  ∧ delete_item None (Some (py "mail")) None (py "and") None Sample.collection
    = (Raise (ValueError Item_not_found), Sample.collection).
Proof.
  apply (search_items_unknown_logic None (Some (py "mail")) None (py "and")
           Sample.collection ∅ (Some (py "x")) None true None true).
  - vm_compute. discriminate.
  - vm_compute. discriminate.
  - vm_compute. reflexivity.
Defined.

Lemma filter_sublist_impl {X} (p q : X → bool) (l : list X) :
  (∀ x, p x = true → q x = true) →
  sublist (List.filter p l) (List.filter q l).
Proof.
  intros Hpq. induction l as [|x l IH]; simpl; [constructor|].
  destruct (p x) eqn:Hp.
  - rewrite (Hpq x Hp). by constructor.
  - destruct (q x); [by constructor|done].
Qed.

Lemma filter_sublist {X} (p : X → bool) (l : list X) :
  sublist (List.filter p l) l.
Proof.
  induction l as [|x l IH]; simpl; [constructor|].
  destruct (p x); by constructor.
Qed.

(** X8. The items matched under AND are among those matched under OR,
    and both are items of the collection, all in enumeration order. *)
Theorem search_items_all_within_any attributes label path c all_ any_ :
  (search_items attributes label path AND c).1 = Ok all_ →
  (search_items attributes label path OR c).1 = Ok any_ →
  sublist all_ any_ ∧ sublist any_ c.
Proof.
  rewrite !search_items_run. simpl.
  destruct (_encode_attributes (default ∅ attributes)) as [enc|]; [|done].
  intros [= <-] [= <-]. split; [|apply filter_sublist].
  apply filter_sublist_impl. intros item.
  rewrite (item_test_matches enc label path ALL item).
  rewrite (item_test_matches enc label path ANY item). simpl. tauto.
Qed.

Lemma search_items_all_within_any_witness :
  sublist [Sample.mail2] [Sample.mail1; Sample.mail2]
  ∧ sublist [Sample.mail1; Sample.mail2] Sample.collection.
Proof.
  apply (search_items_all_within_any (Some {[ py "k2" := Sample.v2_bytes ]})
           (Some (py "mail")) (Some (py "/collection/2")) Sample.collection).
  - vm_compute. reflexivity.
  - vm_compute. reflexivity.
Defined.

(** ** Item mutator: edges, invariants, composition *)

(** X9. An update with nothing to write succeeds: when an item matches,
    and the new secret is left out or empty, and the new attributes are
    left out or empty, [update_item] returns normally and the collection
    is exactly as it was. *)
Theorem update_item_nothing_to_write attributes new_secret new_attributes label
    path logic merge c item rest :
  (search_items attributes label path logic c).1 = Ok (item :: rest) →
  new_secret = None ∨ new_secret = Some [] →
  new_attributes = None ∨ new_attributes = Some ∅ →
  update_item attributes new_secret new_attributes label path logic merge c
  = (Ok (), c).
Proof.
  intros Hs Hsecret Hattrs. unfold update_item, bind.
  destruct (search_items attributes label path logic c) as [r c'] eqn:Hrun.
  rewrite search_items_run in Hrun. injection Hrun as Hr <-.
  simpl in Hs. subst r. rewrite Hs.
  by destruct Hsecret as [-> | ->], Hattrs as [-> | ->].
Qed.

Lemma update_item_nothing_to_write_witness :
  update_item None (Some []) (Some ∅) (Some (py "mail")) None AND true
              Sample.collection
  = (Ok (), Sample.collection).
Proof.
  apply (update_item_nothing_to_write None (Some []) (Some ∅)
           (Some (py "mail")) None AND true Sample.collection Sample.mail1
           [Sample.mail2]).
  - vm_compute. reflexivity.
  - right. reflexivity.
  - right. reflexivity.
Defined.

(** X10. An update is not all-or-nothing: when the new attributes hold
    bytes that are not UTF-8, [update_item] raises [UnicodeDecodeError]
    after it has written the new secret; the item's attributes are as
    before. *)
Theorem update_item_partial attributes secret new_attributes label path logic
    merge c item rest e :
  wf_collection c →
  (search_items attributes label path logic c).1 = Ok (item :: rest) →
  secret ≠ [] →
  new_attributes ≠ ∅ →
  _encode_attributes new_attributes = Raise e →
  ∃ l1 l2,
    c = l1 ++ item :: l2
    ∧ update_item attributes (Some secret) (Some new_attributes) label path
                  logic merge c
      = (Raise UnicodeDecodeError, l1 ++ with_secret item secret :: l2).
Proof.
  intros Hwf Hs Hsecret Hne Henc.
  destruct (mutators_run _ _ _ _ _ _ _ Hwf Hs) as (l1 & l2 & Hc & _ & _ & Hu & _).
  exists l1, l2. split; [done|].
  rewrite Hu, truthy_dict_nonempty, Henc by done.
  apply _encode_attributes_raises in Henc as ->.
  by destruct secret.
Qed.

Lemma update_item_partial_witness :
  ∃ l1 l2,
    Sample.collection = l1 ++ Sample.web :: l2
    ∧ update_item None (Some (py "new")) (Some {[ py "k" := VBytes [xff] ]})
                  (Some (py "web")) None AND true Sample.collection
      = (Raise UnicodeDecodeError,
         l1 ++ with_secret Sample.web (py "new") :: l2).
Proof.
  apply (update_item_partial None (py "new") {[ py "k" := VBytes [xff] ]}
           (Some (py "web")) None AND true Sample.collection Sample.web []
           UnicodeDecodeError).
  - apply (bool_decide_unpack _). vm_compute. exact I.
  - vm_compute. reflexivity.
  - vm_compute. discriminate.
  - apply (bool_decide_unpack _). vm_compute. exact I.
  - vm_compute. reflexivity.
Defined.

(** The shape of the collection after a mutator that found its item. *)
Lemma mutators_shape attributes label path logic c item rest :
  wf_collection c →
  (search_items attributes label path logic c).1 = Ok (item :: rest) →
  ∃ l1 l2, c = l1 ++ item :: l2
    ∧ (∀ new_secret new_attributes merge, ∃ item',
         (update_item attributes new_secret new_attributes label path logic
                      merge c).2 = l1 ++ item' :: l2
         ∧ item_path item' = item_path item
         ∧ item_label item' = item_label item)
    ∧ (∀ delete_attributes,
         (delete_item attributes label path logic delete_attributes c).2
         = l1 ++ l2
         ∨ ∃ item',
             (delete_item attributes label path logic delete_attributes c).2
             = l1 ++ item' :: l2
             ∧ item_path item' = item_path item
             ∧ item_label item' = item_label item).
Proof.
  intros Hwf Hs.
  destruct (mutators_run _ _ _ _ _ _ _ Hwf Hs)
    as (l1 & l2 & Hc & _ & _ & Hu & Hd).
  exists l1, l2. split; [done|]. split.
  - intros new_secret new_attributes merge. rewrite Hu. simpl.
    destruct (truthy_dict new_attributes) as [na|];
      [destruct (_encode_attributes na)|]; simpl;
      eexists; (split; [reflexivity|]); by destruct (truthy_str new_secret).
  - intros delete_attributes. rewrite Hd.
    destruct (truthy_dict delete_attributes) as [da|];
      [destruct (_encode_attributes da)|]; simpl; eauto.
Qed.

(** X11. Whatever they are asked and however they end, [update_item] and
    [delete_item] keep the collection well formed; [update_item] keeps
    every item's path and label, in order; [delete_item] keeps or drops
    paths and labels but never changes or reorders them. *)
Theorem mutators_keep_paths attributes new_secret new_attributes label path
    logic merge delete_attributes c :
  wf_collection c →
  let updated := (update_item attributes new_secret new_attributes label path
                              logic merge c).2 in
  let deleted := (delete_item attributes label path logic delete_attributes c).2 in
  wf_collection updated
  ∧ item_path <$> updated = item_path <$> c
  ∧ item_label <$> updated = item_label <$> c
  ∧ wf_collection deleted
  ∧ sublist ((λ x, (item_path x, item_label x)) <$> deleted)
            ((λ x, (item_path x, item_label x)) <$> c).
Proof.
  intros Hwf updated deleted. subst updated deleted.
  pose proof (mutators_without_match attributes new_secret new_attributes
                label path logic merge delete_attributes c) as Hnone.
  destruct ((search_items attributes label path logic c).1)
    as [[|item rest]|e] eqn:Hs.
  - destruct Hnone as [-> ->]. by repeat split.
  - clear Hnone.
    destruct (mutators_shape _ _ _ _ _ _ _ Hwf Hs) as (l1 & l2 & Hc & Hu & Hd).
    destruct (Hu new_secret new_attributes merge) as (item' & -> & Hp & Hl).
    subst c. unfold wf_collection in *.
    rewrite fmap_app, fmap_cons in Hwf.
    repeat (rewrite fmap_app || rewrite fmap_cons). rewrite Hp, Hl.
    split; [done|]. split; [done|]. split; [done|].
    destruct (Hd delete_attributes) as [-> | (item'' & -> & Hp' & Hl')].
    + repeat (rewrite fmap_app || rewrite fmap_cons). split.
      * assert (Hsub : sublist ((item_path <$> l1) ++ (item_path <$> l2))
                         ((item_path <$> l1)
                          ++ item_path item :: (item_path <$> l2))).
        { apply sublist_app; [done|]. by apply sublist_cons. }
        exact (sublist_NoDup _ _ Hwf Hsub).
      * apply sublist_app; [done|]. by apply sublist_cons.
    + repeat (rewrite fmap_app || rewrite fmap_cons). by rewrite Hp', Hl'.
  - destruct Hnone as [-> ->]. by repeat split.
Qed.

Lemma mutators_keep_paths_witness :
  let updated := (update_item None (Some (py "new")) None (Some (py "mail"))
                              None AND true Sample.collection).2 in
  let deleted := (delete_item None (Some (py "mail")) None AND None
                              Sample.collection).2 in
  wf_collection updated
  ∧ item_path <$> updated = item_path <$> Sample.collection
  ∧ item_label <$> updated = item_label <$> Sample.collection
  ∧ wf_collection deleted
  ∧ sublist ((λ x, (item_path x, item_label x)) <$> deleted)
            ((λ x, (item_path x, item_label x)) <$> Sample.collection).
Proof.
  apply (mutators_keep_paths None (Some (py "new")) None (Some (py "mail"))
           None AND true None Sample.collection).
  apply (bool_decide_unpack _). vm_compute. exact I.
Defined.

(** X12. [delete_item] looks at the keys of the attributes to delete and
    never at their values: two mappings with the same keys (both
    encodable) have the same effect, whatever values they carry and
    whatever values the item has. *)
Theorem delete_item_ignores_values (attributes : option (gmap pystr value))
    (label path : option pystr) (logic : pystr)
    (delete_attributes delete_attributes' : gmap pystr value)
    (encoded encoded' : gmap pystr pystr) (c : Collection) :
  (∀ k, delete_attributes !! k = None ↔ delete_attributes' !! k = None) →
  _encode_attributes delete_attributes = Ok encoded →
  _encode_attributes delete_attributes' = Ok encoded' →
  delete_item attributes label path logic (Some delete_attributes) c
  = delete_item attributes label path logic (Some delete_attributes') c.
Proof.
  intros Hkeys Henc Henc'. unfold delete_item, bind.
  destruct (search_items attributes label path logic c) as [[[|item rest]|e] c'];
    try done.
  assert (Hempty : delete_attributes = ∅ ↔ delete_attributes' = ∅).
  { split; intros ->; apply map_empty; intros k; apply Hkeys, lookup_empty. }
  unfold truthy_dict. do 2 case_bool_decide; [done | exfalso; tauto | exfalso; tauto |].
  unfold lift. rewrite Henc, Henc'. unfold set_attributes.
  match goal with |- context [map_fold ?f ?a encoded] =>
    enough (Heq : map_fold f a encoded = map_fold f a encoded')
      by by rewrite Heq
  end.
  apply map_eq. intros k. rewrite !delete_loop_lookup.
  pose proof (_encode_attributes_keys _ _ k Henc) as H1.
  pose proof (_encode_attributes_keys _ _ k Henc') as H2.
  pose proof (Hkeys k) as H3.
  destruct (encoded !! k), (encoded' !! k); try done.
  - assert (@None pystr = None) as Hn by done. apply H2, H3, H1 in Hn. done.
  - assert (@None pystr = None) as Hn by done. apply H1, H3, H2 in Hn. done.
Qed.

Lemma delete_item_ignores_values_witness :
  delete_item None None (Some (py "/collection/2")) AND
              (Some {[ py "k1" := VStr (py "v1") ]}) Sample.collection
  = delete_item None None (Some (py "/collection/2")) AND
                (Some {[ py "k1" := VStr (py "another value") ]})
                Sample.collection.
Proof.
  apply (delete_item_ignores_values None None (Some (py "/collection/2")) AND
           {[ py "k1" := VStr (py "v1") ]}
           {[ py "k1" := VStr (py "another value") ]}
           {[ py "k1" := py "v1" ]} {[ py "k1" := py "another value" ]}).
  - intros k. destruct (decide (k = py "k1")) as [->|Hne].
    + rewrite !lookup_singleton_eq. split; discriminate.
    + by rewrite !lookup_singleton_ne.
  - vm_compute. reflexivity.
  - vm_compute. reflexivity.
Defined.

(** Searching by path alone. *)
Lemma item_test_path p item :
  item_test ∅ None (Some p) AND item = bool_decide (p = item_path item).
Proof.
  unfold item_test, matches_attributes. by rewrite map_to_list_empty.
Qed.

Lemma search_by_path p c :
  search_items None None (Some p) AND c
  = (Ok (List.filter (λ x, bool_decide (p = item_path x)) c), c).
Proof.
  rewrite search_items_run. simpl.
  unfold _encode_attributes. by rewrite dict_comprehension_empty.
Qed.

Lemma search_by_path_absent p l :
  Forall (λ x, item_path x ≠ p) l →
  search_items None None (Some p) AND l = (Ok [], l).
Proof.
  intros Hl. rewrite search_by_path. do 2 f_equal.
  induction Hl as [|x l Hx _ IH]; [done|]. simpl.
  by rewrite bool_decide_eq_false_2 by done.
Qed.

Lemma search_by_path_first p c item rest :
  (search_items None None (Some p) AND c).1 = Ok (item :: rest) →
  item_path item = p.
Proof.
  rewrite search_by_path. simpl. intros [= Hf].
  assert (Hin : In item (List.filter (λ x, bool_decide (p = item_path x)) c)).
  { rewrite Hf. by left. }
  apply filter_In in Hin as [_ Hp]. by apply bool_decide_eq_true in Hp.
Qed.

(** X13. Deleting by path is final: after [delete_item] has removed the
    item with a path, a second [delete_item] for that path raises "Item
    not found" and [read_item] for it returns [None]. *)
Theorem delete_item_twice p c item rest :
  wf_collection c →
  (search_items None None (Some p) AND c).1 = Ok (item :: rest) →
  ∃ c',
    delete_item None None (Some p) AND None c = (Ok (), c')
    ∧ delete_item None None (Some p) AND None c'
      = (Raise (ValueError Item_not_found), c')
    ∧ read_item None None (Some p) AND false c' = (Ok None, c').
Proof.
  intros Hwf Hs.
  pose proof (search_by_path_first p c item rest Hs) as Hp.
  destruct (delete_item_run _ _ _ _ _ _ _ Hwf Hs)
    as (l1 & l2 & Hc & Hother & _ & Hd).
  exists (l1 ++ l2). split; [by rewrite (Hd None)|].
  rewrite Hp in Hother.
  pose proof (search_by_path_absent p (l1 ++ l2) Hother) as Hnone.
  split.
  - unfold delete_item, bind. by rewrite Hnone.
  - unfold read_item, bind. by rewrite Hnone.
Qed.

Lemma delete_item_twice_witness :
  ∃ c',
    delete_item None None (Some (py "/collection/2")) AND None Sample.collection
    = (Ok (), c')
    ∧ delete_item None None (Some (py "/collection/2")) AND None c'
      = (Raise (ValueError Item_not_found), c')
    ∧ read_item None None (Some (py "/collection/2")) AND false c'
      = (Ok None, c').
Proof.
  apply (delete_item_twice (py "/collection/2") Sample.collection Sample.mail2 []).
  - apply (bool_decide_unpack _). vm_compute. exact I.
  - vm_compute. reflexivity.
Defined.

(** X14. Repeating an update addressed by path changes nothing more:
    running [update_item] twice with the same arguments ends as running
    it once. *)
Theorem update_item_twice p new_secret new_attributes merge c item rest :
  wf_collection c →
  (search_items None None (Some p) AND c).1 = Ok (item :: rest) →
  bind (update_item None new_secret new_attributes None (Some p) AND merge)
       (λ _, update_item None new_secret new_attributes None (Some p) AND merge)
       c
  = update_item None new_secret new_attributes None (Some p) AND merge c.
Proof.
  intros Hwf Hs.
  pose proof (search_by_path_first p c item rest Hs) as Hp.
  destruct (mutators_run _ _ _ _ _ _ _ Hwf Hs)
    as (l1 & l2 & Hc & Hother & _ & Hu & _).
  subst c. rewrite Hp in Hother. apply Forall_app in Hother as [H1 H2].
  (* the second run finds the item the first run left, and leaves it *)
  assert (Hsecond : ∀ x,
    item_path x = p →
    with_attributes (from_option (with_secret x) x (truthy_str new_secret))
      (match truthy_dict new_attributes ≫= λ na,
               match _encode_attributes na with
               | Ok enc => Some enc
               | Raise _ => None
               end with
       | Some enc => if merge then enc ∪ item_attributes x else enc
       | None => item_attributes x
       end) = x →
    update_item None new_secret new_attributes None (Some p) AND merge
                (l1 ++ x :: l2)
    = (match truthy_dict new_attributes with
       | Some na =>
         match _encode_attributes na with
         | Ok _ => Ok ()
         | Raise e => Raise e
         end
       | None => Ok ()
       end, l1 ++ x :: l2)).
  { intros x Hx Hfix.
    assert (Hwfx : wf_collection (l1 ++ x :: l2)).
    { unfold wf_collection in *. rewrite fmap_app, fmap_cons in Hwf |- *.
      by rewrite Hx, <- Hp. }
    assert (Hsx : (search_items None None (Some p) AND (l1 ++ x :: l2)).1
                  = Ok [x]).
    { rewrite search_by_path. simpl. f_equal.
      rewrite List.filter_app. simpl.
      rewrite bool_decide_eq_true_2 by done.
      assert (Hnone : ∀ l, Forall (λ y, item_path y ≠ p) l →
                List.filter (λ y, bool_decide (p = item_path y)) l = []).
      { induction 1 as [|y l Hy _ IH]; [done|]. simpl.
        by rewrite bool_decide_eq_false_2 by done. }
      by rewrite !Hnone. }
    destruct (mutators_run _ _ _ _ _ _ _ Hwfx Hsx)
      as (l1' & l2' & Hc' & _ & _ & Hu' & _).
    rewrite (Hu' new_secret new_attributes merge). rewrite Hc'. simpl.
    destruct (truthy_dict new_attributes) as [na|]; simpl in *.
    - destruct (_encode_attributes na) as [enc|e]; simpl in *.
      + by rewrite Hfix.
      + f_equal. do 2 f_equal.
        destruct x, (truthy_str new_secret);
          unfold with_attributes, with_secret in *; simpl in *; congruence.
    - f_equal. do 2 f_equal.
      destruct x, (truthy_str new_secret);
        unfold with_attributes, with_secret in *; simpl in *; congruence. }
  unfold bind. rewrite (Hu new_secret new_attributes merge). simpl.
  destruct (truthy_dict new_attributes) as [na|] eqn:Hna.
  - destruct (_encode_attributes na) as [enc|e] eqn:Henc; [|done].
    rewrite Hsecond.
    + done.
    + by destruct (truthy_str new_secret).
    + simpl. rewrite Henc. unfold with_attributes, with_secret.
      destruct (truthy_str new_secret) as [s|], merge; simpl; f_equal;
        by rewrite ?(assoc_L (∪)), ?(idemp_L (∪)).
  - rewrite Hsecond.
    + done.
    + by destruct (truthy_str new_secret).
    + simpl. unfold with_attributes, with_secret.
      by destruct (truthy_str new_secret), item.
Qed.

Lemma update_item_twice_witness :
  let u := update_item None (Some (py "new"))
                       (Some {[ py "k2" := Sample.v2_bytes ]}) None
                       (Some (py "/collection/1")) AND true in
  bind u (λ _, u) Sample.collection = u Sample.collection.
Proof.
  apply (update_item_twice (py "/collection/1") (Some (py "new"))
           (Some {[ py "k2" := Sample.v2_bytes ]}) true Sample.collection
           Sample.mail1 []).
  - apply (bool_decide_unpack _). vm_compute. exact I.
  - vm_compute. reflexivity.
Defined.

(** ** Reading, listing, creating *)

(** X15. The readers never write: whatever they are asked, and whether
    they return or raise, [search_items], [read_item] and [list_items]
    leave the collection as it was. *)
Theorem readers_leave_collection attributes label path logic multiple c :
  (search_items attributes label path logic c).2 = c
  ∧ (read_item attributes label path logic multiple c).2 = c
  ∧ (list_items c).2 = c.
Proof.
  split; [by rewrite search_items_run|]. split; [|done].
  unfold read_item, bind. rewrite search_items_run.
  destruct (_encode_attributes (default ∅ attributes)); [|done].
  destruct (List.filter _ c) as [|item rest]; [done|].
  unfold lift, ret. destruct multiple.
  - by destruct (list_comprehension read_entry (item :: rest)).
  - by destruct (read_entry item).
Qed.

(** The loop of [list_items] is a comprehension. *)
Lemma list_items_run c :
  list_items c
  = (list_comprehension (λ item,
       res_bind (_decode_attributes (wire (get_attributes item))) (λ attributes,
       Ok (mkListing (get_label item) attributes (item_path item)))) c, c).
Proof.
  unfold list_items, bind, get_all_items, lift. f_equal.
  match goal with |- foldl ?body (Ok []) c = list_comprehension ?f c =>
    enough (Hloop : ∀ item_list,
      foldl body (Ok item_list) c
      = res_bind (list_comprehension f c) (λ ls, Ok (item_list ++ ls)))
  end.
  { rewrite Hloop. by destruct (list_comprehension _ c). }
  induction c as [|item c IH]; intros item_list; simpl.
  { by rewrite app_nil_r. }
  destruct (_decode_attributes (wire (get_attributes item))) as [a|e]; simpl.
  - rewrite IH. destruct (list_comprehension _ c) as [ls|]; simpl; [|done].
    by rewrite <- app_assoc.
  - clear IH. induction c as [|x c IH]; [done|]. simpl. apply IH.
Qed.

(** X16. On a collection whose attribute values are text, [list_items]
    returns one listing per item, in enumeration order, with the item's
    label and path and its decoded attributes; the empty collection
    lists as the empty list. *)
Theorem list_items_listing c :
  Forall text_attributes c →
  ∃ listings,
    list_items c = (Ok listings, c)
    ∧ Forall2 listed_item c listings
    ∧ (c = [] → listings = []).
Proof.
  intros Htext. rewrite list_items_run.
  destruct (list_comprehension_Forall2
              (λ item,
                 res_bind (_decode_attributes (wire (get_attributes item)))
                   (λ attributes,
                      Ok (mkListing (get_label item) attributes (item_path item))))
              listed_item c) as (ls & Hls & Hrel).
  { eapply Forall_impl; [exact Htext|]. intros item Hitem.
    destruct (read_entry_decoded item Hitem) as (e & He & _ & _ & Hattrs).
    unfold read_entry in He.
    destruct (_decode_attributes (wire (get_attributes item))) as [a|]; [|done].
    simpl in He. injection He as <-. simpl in Hattrs.
    eexists. split; [done|]. by repeat split. }
  exists ls. rewrite Hls. repeat split; [done|].
  intros ->. by inversion Hrel.
Qed.

Lemma list_items_listing_witness :
  ∃ listings,
    list_items Sample.collection = (Ok listings, Sample.collection)
    ∧ Forall2 listed_item Sample.collection listings
    ∧ (Sample.collection = [] → listings = []).
Proof.
  apply (list_items_listing Sample.collection).
  apply (bool_decide_unpack _). vm_compute. exact I.
Defined.

(** What [list_items] shows of the sample collection. *)
Example list_items_sample :
  (list_items Sample.collection).1
  = Ok [mkListing (py "mail") {[ py "k1" := VBytes [x76; x31] ]}
                  (py "/collection/1");
        mkListing (py "mail")
                  {[ py "k1" := VBytes [x76; x31]; py "k2" := VBytes [x76; x32] ]}
                  (py "/collection/2");
        mkListing (py "web") ∅ (py "/collection/3")].
Proof. vm_compute. reflexivity. Qed.

(** X17. [create_item] encodes before it stores: attributes that hold
    bytes that are not UTF-8 make it raise [UnicodeDecodeError] with
    nothing created. *)
Theorem create_item_not_encodable new_path item_label attributes secret c e :
  _encode_attributes attributes = Raise e →
  create_item new_path item_label attributes secret c
  = (Raise UnicodeDecodeError, c).
Proof.
  intros Henc. unfold create_item, bind, lift. rewrite Henc.
  by apply _encode_attributes_raises in Henc as ->.
Qed.

Lemma create_item_not_encodable_witness :
  create_item (py "/collection/4") (py "ftp") {[ py "k" := VBytes [xff] ]}
              (py "s") Sample.collection
  = (Raise UnicodeDecodeError, Sample.collection).
Proof.
  apply (create_item_not_encodable (py "/collection/4") (py "ftp")
           {[ py "k" := VBytes [xff] ]} (py "s") Sample.collection
           UnicodeDecodeError).
  vm_compute. reflexivity.
Defined.




(** ** Resolving the collection, the lock gate, teardown *)

(** X19. [get_collection] returns the first collection the service lists
    under the wanted label, as the service lists it (it unlocks nothing);
    it raises [ValueError], naming the collection, exactly when no listed
    collection has that label. *)
Theorem get_collection_first collection_name collections :
  match get_collection collection_name collections with
  | Ok collection =>
    ∃ l1 l2, collections = l1 ++ collection :: l2
      ∧ collection_label collection = collection_name
      ∧ Forall (λ x, collection_label x ≠ collection_name) l1
  | Raise e =>
    e = ValueError (msg_collection_not_found collection_name)
    ∧ Forall (λ x, collection_label x ≠ collection_name) collections
  end.
Proof.
  induction collections as [|x collections IH]; simpl; [done|].
  case_bool_decide as Hx.
  - exists [], collections. by repeat split.
  - destruct (get_collection collection_name collections) as [collection|e].
    + destruct IH as (l1 & l2 & -> & Hl & H1).
      exists (x :: l1), l2. repeat split; [done|]. by constructor.
    + destruct IH as [-> Hall]. split; [done|]. by constructor.
Qed.

Example get_collection_duplicate_label :
  get_collection (py "login")
    [mkStoredCollection (py "session") false [];
     mkStoredCollection (py "login") true Sample.collection;
     mkStoredCollection (py "login") false []]
  = Ok (mkStoredCollection (py "login") true Sample.collection).
Proof. vm_compute. reflexivity. Qed.

(** X20. The gate of [main] lets a command run only against an unlocked
    collection.  On an unlocked collection it does nothing.  On a locked
    one it reports on standard error, and without [--unlock] returns the
    exit code 2 with no request sent to the service; with [--unlock] it
    sends one unlock request, and either the collection is unlocked
    afterwards or [ValueError] is raised. *)
Theorem main_lock_gate_spec collection unlock p g :
  match main_lock_gate collection unlock p g with
  | (Ok None, g') =>
    locked g' = false
    ∧ (locked g = false ∧ g' = g
       ∨ locked g = true ∧ unlock = true
         ∧ unlock_requests g' = S (unlock_requests g))
  | (Ok (Some code), g') =>
    code = 2%N ∧ locked g = true ∧ unlock = false
    ∧ g' = mkGateway true (unlock_requests g)
                     (stderr g ++ [msg_is_locked collection])
  | (Raise e, g') =>
    e = ValueError (msg_still_locked collection)
    ∧ locked g = true ∧ unlock = true ∧ locked g' = true
    ∧ unlock_requests g' = S (unlock_requests g)
  end.
Proof.
  destruct g as [[] n err], p as [[] []], unlock; simpl; auto 10.
Qed.

Example main_lock_gate_refused :
  main_lock_gate (py "login") false (mkPrompt false false) (mkGateway true 0 [])
  = (Ok (Some 2%N), mkGateway true 0 [msg_is_locked (py "login")]).
Proof. vm_compute. reflexivity. Qed.


(** ** The commands of [main] *)

Lemma _encode_attributes_wire (strings : gmap pystr pystr) :
  _encode_attributes (wire strings) = Ok strings.
Proof.
  apply dict_comprehension_intro. intros k. unfold wire.
  rewrite lookup_fmap. by destruct (strings !! k).
Qed.

(** The JSON hook on an object of strings: what it returns encodes to
    those strings. *)
Lemma decode_bytes_wire (strings : gmap pystr pystr) :
  ∃ dct, decode_bytes (wire strings) = Ok dct
    ∧ _encode_attributes dct = Ok strings
    ∧ (dct = ∅ ↔ strings = ∅).
Proof.
  destruct (decode_bytes_lookup (wire strings)) as (dct & Hd & Hk).
  exists dct. split; [done|]. split.
  - apply dict_comprehension_intro. intros k. rewrite Hk. unfold wire.
    rewrite lookup_fmap. destruct (strings !! k) as [str|]; simpl; [|done].
    apply hooked_encodes.
  - split; intros ->.
    + apply map_empty. intros k. specialize (Hk k). unfold wire in Hk.
      rewrite lookup_fmap, lookup_empty in Hk. by destruct (strings !! k).
    + apply map_empty. intros k. rewrite Hk. unfold wire.
      by rewrite fmap_empty, lookup_empty.
Qed.

(** What the hook does to an optional argument. *)
Lemma decode_bytes_wire_option (strings : option (gmap pystr pystr)) (c : Collection) :
  ∃ dct : option (gmap pystr value),
    match wire <$> strings with
    | Some d => bind (lift (decode_bytes d)) (λ d, ret (Some d))
    | None => ret None
    end c = (Ok dct, c)
    ∧ (truthy_dict dct ≫= λ d, Some (_encode_attributes d))
      = (truthy_dict strings ≫= λ d, Some (Ok d)).
Proof.
  destruct strings as [strings|]; simpl; [|by exists None].
  destruct (decode_bytes_wire strings) as (dct & Hd & He & Hempty).
  exists (Some dct). unfold bind, lift, ret. rewrite Hd. split; [done|].
  simpl. do 2 case_bool_decide; simpl; try tauto. by rewrite He.
Qed.

Lemma truthy_dict_wire (strings : option (gmap pystr pystr)) :
  (truthy_dict (wire <$> strings) ≫= λ d, Some (_encode_attributes d))
  = (truthy_dict strings ≫= λ d, Some (Ok d)).
Proof.
  destruct strings as [strings|]; simpl; [|done].
  assert (Hempty : wire strings = ∅ ↔ strings = ∅).
  { unfold wire. apply fmap_empty_iff. }
  do 2 case_bool_decide; simpl; try tauto. by rewrite _encode_attributes_wire.
Qed.

(** [List.filter] finds something exactly when something passes. *)
Lemma filter_nil_Exists {X} (test : X → bool) (P : X → Prop) (l : list X) :
  (∀ x, test x = true ↔ P x) →
  List.filter test l = [] ↔ ¬ Exists P l.
Proof.
  intros Htest. induction l as [|x l IH]; simpl.
  { split; [|done]. intros _ H. inversion H. }
  rewrite Exists_cons. destruct (test x) eqn:Hx.
  - apply Htest in Hx. split; [done|]. tauto.
  - rewrite IH. split; [|tauto]. intros Hl [HP|Hex]; [|done].
    apply Htest in HP. congruence.
Qed.

(** [update_item] seen through what it encodes: the search predicate's
    encoding decides the search, the new attributes count through their
    truth value and their encoding. *)
Lemma update_item_encoded (attributes : option (gmap pystr value))
    (new_secret : option pystr) (new_attributes : option (gmap pystr value))
    (label path : option pystr) (logic : pystr) (merge : bool) (c : Collection)
    (encoded : gmap pystr pystr) (encoded_new : option (gmap pystr pystr)) :
  _encode_attributes (default ∅ attributes) = Ok encoded →
  (truthy_dict new_attributes ≫= λ d, Some (_encode_attributes d))
  = (encoded_new ≫= λ d, Some (Ok d)) →
  update_item attributes new_secret new_attributes label path logic merge c
  = match List.filter (item_test encoded label path logic) c with
    | [] => (Raise (ValueError Item_not_found), c)
    | item :: _ =>
      let c1 := match truthy_str new_secret with
                | Some new_secret => (set_secret item new_secret c).2
                | None => c
                end in
      match encoded_new with
      | Some encoded_new =>
        set_attributes item (if merge then encoded_new ∪ get_attributes item
                             else encoded_new) c1
      | None => (Ok (), c1)
      end
    end.
Proof.
  intros Henc Hnew. unfold update_item, bind. rewrite search_items_run, Henc.
  destruct (List.filter _ c) as [|item rest]; [done|].
  destruct (truthy_dict new_attributes) as [na|], encoded_new as [en|];
    simpl in Hnew; try done.
  - injection Hnew as Hna. unfold lift. rewrite Hna.
    by destruct (truthy_str new_secret), merge.
  - by destruct (truthy_str new_secret).
Qed.

Lemma delete_item_encoded (attributes delete_attributes : option (gmap pystr value))
    (label path : option pystr) (logic : pystr) (c : Collection)
    (encoded : gmap pystr pystr) (encoded_delete : option (gmap pystr pystr)) :
  _encode_attributes (default ∅ attributes) = Ok encoded →
  (truthy_dict delete_attributes ≫= λ d, Some (_encode_attributes d))
  = (encoded_delete ≫= λ d, Some (Ok d)) →
  delete_item attributes label path logic delete_attributes c
  = match List.filter (item_test encoded label path logic) c with
    | [] => (Raise (ValueError Item_not_found), c)
    | item :: _ =>
      match encoded_delete with
      | Some encoded_delete =>
        set_attributes item
          (map_fold (λ attr _ current_attributes,
                       if bool_decide (is_Some (current_attributes !! attr))
                       then delete attr current_attributes
                       else current_attributes)
                    (get_attributes item) encoded_delete) c
      | None => delete_ item c
      end
    end.
Proof.
  intros Henc Hdel. unfold delete_item, bind. rewrite search_items_run, Henc.
  destruct (List.filter _ c) as [|item rest]; [done|].
  destruct (truthy_dict delete_attributes) as [da|], encoded_delete as [ed|];
    simpl in Hdel; try done.
  injection Hdel as Hda. unfold lift. by rewrite Hda.
Qed.

(** X22. The [update] command, given JSON objects of strings.  It never
    raises.  When some item of the collection matches the predicate it
    prints that the item was updated and returns 0, and the collection
    is what [update_item] makes of it with the strings themselves, the
    secret being the one given or, for an empty one, the one typed at
    the prompt.  When no item matches it prints the text of the
    exception, returns 1 and leaves the collection as it was. *)
Theorem main_update_outcome (typed : pystr) (attributes : gmap pystr pystr)
    (new_secret : option pystr) (new_attributes : option (gmap pystr pystr))
    (label path : option pystr) (logic : Logic) (replace : bool)
    (c : Collection) :
  ∃ printed code c',
    main_update typed (wire attributes) new_secret (wire <$> new_attributes)
                label path (logic_name logic) replace c
    = (Ok (printed, code), c')
    ∧ if decide (Exists (item_matches attributes label path logic) c)
      then printed = [Line (py "Item updated successfully")] ∧ code = 0%N
           ∧ update_item (Some (wire attributes))
                         (check_prompt_for_secret typed new_secret).1
                         (wire <$> new_attributes) label path
                         (logic_name logic) (negb replace) c
             = (Ok (), c')
      else printed = [ExceptionText (ValueError Item_not_found)] ∧ code = 1%N
           ∧ c' = c.
Proof.
  unfold main_update. unfold bind at 1. unfold lift at 1.
  destruct (decode_bytes_wire attributes) as (dct & -> & Henc & _).
  unfold bind at 1.
  destruct (decode_bytes_wire_option new_attributes c) as (dna & -> & Hdna).
  unfold report.
  rewrite (update_item_encoded (Some dct) _ dna _ _ _ _ c attributes
             (truthy_dict new_attributes) Henc)
    by (rewrite Hdna; by destruct (truthy_dict new_attributes)).
  rewrite (update_item_encoded (Some (wire attributes)) _ (wire <$> new_attributes)
             _ _ _ _ c attributes (truthy_dict new_attributes)
             (_encode_attributes_wire attributes))
    by (rewrite truthy_dict_wire; by destruct (truthy_dict new_attributes)).
  pose proof (filter_nil_Exists _ _ c
                (item_test_matches attributes label path logic)) as Hnil.
  destruct (List.filter _ c) as [|item rest].
  - destruct (decide _) as [Hex|_]; [by apply Hnil in Hex|].
    by exists [ExceptionText (ValueError Item_not_found)], 1%N, c.
  - destruct (decide _) as [_|Hex]; [|by apply Hnil in Hex].
    simpl. destruct (truthy_dict new_attributes); simpl; by eexists _, _, _.
Qed.

Example main_update_nothing_typed :
  main_update [] ∅ (Some []) None None (Some (py "/collection/2")) AND false
              Sample.collection
  = (Ok ([Line (py "Item updated successfully")], 0%N), Sample.collection).
Proof. vm_compute. reflexivity. Qed.

(** X23. The [delete] command, given JSON objects of strings.  It never
    raises.  When some item of the collection matches the predicate it
    prints that the item was deleted and returns 0, and the collection
    is what [delete_item] makes of it with the strings themselves.  When
    no item matches it prints the text of the exception, returns 1 and
    leaves the collection as it was. *)
Theorem main_delete_outcome (attributes : gmap pystr pystr)
    (label path : option pystr) (logic : Logic)
    (delete_attributes : option (gmap pystr pystr)) (c : Collection) :
  ∃ printed code c',
    main_delete (wire attributes) label path (logic_name logic)
                (wire <$> delete_attributes) c
    = (Ok (printed, code), c')
    ∧ if decide (Exists (item_matches attributes label path logic) c)
      then printed = [Line (py "Item deleted successfully")] ∧ code = 0%N
           ∧ delete_item (Some (wire attributes)) label path
                         (logic_name logic) (wire <$> delete_attributes) c
             = (Ok (), c')
      else printed = [ExceptionText (ValueError Item_not_found)] ∧ code = 1%N
           ∧ c' = c.
Proof.
  unfold main_delete. unfold bind at 1. unfold lift at 1.
  destruct (decode_bytes_wire attributes) as (dct & -> & Henc & _).
  unfold bind at 1.
  destruct (decode_bytes_wire_option delete_attributes c) as (dda & -> & Hdda).
  unfold report.
  rewrite (delete_item_encoded (Some dct) dda _ _ _ c attributes
             (truthy_dict delete_attributes) Henc)
    by (rewrite Hdda; by destruct (truthy_dict delete_attributes)).
  rewrite (delete_item_encoded (Some (wire attributes)) (wire <$> delete_attributes)
             _ _ _ c attributes (truthy_dict delete_attributes)
             (_encode_attributes_wire attributes))
    by (rewrite truthy_dict_wire; by destruct (truthy_dict delete_attributes)).
  pose proof (filter_nil_Exists _ _ c
                (item_test_matches attributes label path logic)) as Hnil.
  destruct (List.filter _ c) as [|item rest].
  - destruct (decide _) as [Hex|_]; [by apply Hnil in Hex|].
    by exists [ExceptionText (ValueError Item_not_found)], 1%N, c.
  - destruct (decide _) as [_|Hex]; [|by apply Hnil in Hex].
    simpl. destruct (truthy_dict delete_attributes); simpl; by eexists _, _, _.
Qed.

Example main_delete_not_found :
  main_delete ∅ (Some (py "ftp")) None AND None Sample.collection
  = (Ok ([ExceptionText (ValueError Item_not_found)], 1%N), Sample.collection).
Proof. vm_compute. reflexivity. Qed.
